(** * Verification of [scripts/extract_rust_snippets.py]

    A shallow embedding of the snippet extractor: the Python string
    operations it calls, the fragment of the [re] module its patterns use
    (a backtracking matcher with Python's priorities), the line scanner,
    the placeholder filter, the struct splitter and the file writer, the
    last one over an explicit world of written files and output streams. *)


From Stdlib Require Import ZArith Lia DecimalNat.
From stdpp Require Import gmap list strings.

Set Default Proof Using "Type".

(** ** Text

    A Python [str] is a sequence of Unicode code points. *)

Abbreviation char := N (only parsing).
Abbreviation str := (list N) (only parsing).

(** [py "abc"] is the [str] of an ASCII literal of the source. *)
Definition py (s : String.string) : str :=
  map Ascii.N_of_ascii (String.list_ascii_of_string s).

Definition nl : char := 10%N.

(** [str.isspace] on one code point, which is also the class [\s] of a
    [str] pattern: the code points CPython lists as white space. *)
Definition isspace (c : char) : bool :=
  ((9 <=? c) && (c <=? 13) || (28 <=? c) && (c <=? 32)
   || (c =? 0x85) || (c =? 0xA0) || (c =? 0x1680)
   || (0x2000 <=? c) && (c <=? 0x200A)
   || (c =? 0x2028) || (c =? 0x2029) || (c =? 0x202F)
   || (c =? 0x205F) || (c =? 0x3000))%N.

Fixpoint lstrip (s : str) : str :=
  match s with
  | c :: s' => if isspace c then lstrip s' else s
  | [] => []
  end.

Definition rstrip (s : str) : str := rev (lstrip (rev s)).

(** [s.strip()] *)
Definition str_strip (s : str) : str := rstrip (lstrip s).

(** [s.startswith(p)] *)
Fixpoint str_startswith (p s : str) : bool :=
  match p, s with
  | [], _ => true
  | _ :: _, [] => false
  | a :: p', b :: s' => (a =? b)%N && str_startswith p' s'
  end.

(** [s == t] *)
Definition str_eqb (s t : str) : bool := bool_decide (s = t).

(** [s.split('\n')]: never empty, one more field than there are newlines. *)
Fixpoint str_split_nl (s : str) : list str :=
  match s with
  | [] => [[]]
  | c :: s' =>
      if (c =? nl)%N then [] :: str_split_nl s'
      else match str_split_nl s' with
           | l :: ls => (c :: l) :: ls
           | [] => [[c]]
           end
  end.

(** ['\n'.join(ls)] *)
Fixpoint str_join_nl (ls : list str) : str :=
  match ls with
  | [] => []
  | [l] => l
  | l :: ls' => l ++ nl :: str_join_nl ls'
  end.

(** [str(n)] for a non-negative [int]. *)
Fixpoint digits (d : Decimal.uint) : str :=
  match d with
  | Decimal.Nil => []
  | Decimal.D0 d => 48%N :: digits d
  | Decimal.D1 d => 49%N :: digits d
  | Decimal.D2 d => 50%N :: digits d
  | Decimal.D3 d => 51%N :: digits d
  | Decimal.D4 d => 52%N :: digits d
  | Decimal.D5 d => 53%N :: digits d
  | Decimal.D6 d => 54%N :: digits d
  | Decimal.D7 d => 55%N :: digits d
  | Decimal.D8 d => 56%N :: digits d
  | Decimal.D9 d => 57%N :: digits d
  end.

Definition str_of_int (n : nat) : str := digits (Nat.to_uint n).

(** [os.path.join(a, b)] of [posixpath]. *)
Definition os_path_join (a b : str) : str :=
  if str_startswith (py "/") b then b
  else if bool_decide (a = []) || str_startswith (py "/") (rev a) then a ++ b
  else a ++ py "/" ++ b.

(** ** The [re] module, as far as the script's patterns go

    The patterns of the script are flat sequences of single-character
    matchers, some of them repeated, and the anchors [^] and [$]; there is
    no group and no alternation in them. *)

Module Re.

Record flags := Flags { IGNORECASE : bool; MULTILINE : bool; DOTALL : bool }.

Inductive atom :=
| Lit (c : char)              (* a literal character, escaped or not *)
| Dot                         (* .  *)
| Cls (cls : char -> bool).    (* a class: \s, \w *)

Inductive item :=
| One (a : atom)              (* a    *)
| Star (a : atom)             (* a*   *)
| Plus (a : atom)             (* a+   *)
| LazyStar (a : atom)         (* a*?  *)
| Bol                         (* ^    *)
| Eol.                        (* $    *)

Abbreviation pattern := (list item) (only parsing).

(** A literal run of characters, such as [derive]. *)
Definition lit (s : String.string) : pattern := map (fun c => One (Lit c)) (py s).

(** The lower-case mapping the matcher applies under IGNORECASE. It agrees
    with Unicode's wherever the result is an ASCII letter, which is all a
    comparison with an ASCII literal looks at: besides A-Z only U+0130 and
    U+212A (Kelvin) lower to ASCII. *)
Definition lower (c : char) : char :=
  if (65 <=? c)%N && (c <=? 90)%N then (c + 32)%N
  else if (c =? 0x130)%N then 105%N
  else if (c =? 0x212A)%N then 107%N
  else c.

Definition atom_ok (fl : flags) (a : atom) (x : char) : bool :=
  match a with
  | Lit c => if IGNORECASE fl then (lower x =? lower c)%N else (x =? c)%N
  | Dot => DOTALL fl || negb (x =? nl)%N
  | Cls cls => cls x
  end.

(** A position in the subject: the characters before it, nearest first,
    and the characters from it on. *)
Abbreviation cursor := (list N * list N)%type (only parsing).

Definition at_bol (fl : flags) (c : cursor) : bool :=
  match fst c with
  | [] => true
  | x :: _ => MULTILINE fl && (x =? nl)%N
  end.

Definition at_eol (fl : flags) (c : cursor) : bool :=
  match snd c with
  | [] => true
  | x :: t => (x =? nl)%N && (MULTILINE fl || bool_decide (t = []))
  end.

(** Greedy repetition: take one more character first, give it back when
    the rest of the pattern fails. *)
Fixpoint star_greedy (ok : char -> bool) (k : cursor -> option cursor)
    (bef aft : str) : option cursor :=
  match aft with
  | x :: t =>
      if ok x then
        match star_greedy ok k (x :: bef) t with
        | Some r => Some r
        | None => k (bef, aft)
        end
      else k (bef, aft)
  | [] => k (bef, aft)
  end.

(** Lazy repetition: try the rest of the pattern first, take one more
    character when it fails. *)
Fixpoint star_lazy (ok : char -> bool) (k : cursor -> option cursor)
    (bef aft : str) : option cursor :=
  match k (bef, aft) with
  | Some r => Some r
  | None =>
      match aft with
      | x :: t => if ok x then star_lazy ok k (x :: bef) t else None
      | [] => None
      end
  end.

(** The backtracking matcher: the first match in Python's order of
    preference that starts at the cursor, as the cursor where it ends. *)
Fixpoint match_here (fl : flags) (p : pattern) (c : cursor) : option cursor :=
  match p with
  | [] => Some c
  | One a :: p' =>
      match snd c with
      | x :: t => if atom_ok fl a x then match_here fl p' (x :: fst c, t) else None
      | [] => None
      end
  | Star a :: p' => star_greedy (atom_ok fl a) (match_here fl p') (fst c) (snd c)
  | Plus a :: p' =>
      match snd c with
      | x :: t =>
          if atom_ok fl a x
          then star_greedy (atom_ok fl a) (match_here fl p') (x :: fst c) t
          else None
      | [] => None
      end
  | LazyStar a :: p' => star_lazy (atom_ok fl a) (match_here fl p') (fst c) (snd c)
  | Bol :: p' => if at_bol fl c then match_here fl p' c else None
  | Eol :: p' => if at_eol fl c then match_here fl p' c else None
  end.

(** [re.match(p, s, fl)]: a match at the very start of [s], or [None]. *)
Definition re_match (fl : flags) (p : pattern) (s : str) : option cursor :=
  match_here fl p ([], s).

(** A match object: [m.start()], [m.end()] and [m.group(0)]. *)
Record match_obj := Match { m_start : nat; m_end : nat; group0 : str }.

(** [re.finditer(p, s, fl)]: scan left to right; after a match the scan
    resumes where the match ended ([skip] counts the characters of the last
    match still to be passed), otherwise one character further. The
    patterns of the script match no empty string, so the special treatment
    Python gives to empty matches is not modelled: an empty match is
    reported and the scan moves one character on. *)
Fixpoint finditer_from (fl : flags) (p : pattern) (bef aft : str) (skip : nat)
    {struct aft} : list match_obj :=
  match skip with
  | S k =>
      match aft with
      | x :: t => finditer_from fl p (x :: bef) t k
      | [] => []
      end
  | O =>
      match match_here fl p (bef, aft) with
      | Some (bef', aft') =>
          let n := length aft - length aft' in
          Match (length bef) (length bef + n) (take n aft) ::
            match aft with
            | x :: t => finditer_from fl p (x :: bef) t (pred n)
            | [] => []
            end
      | None =>
          match aft with
          | x :: t => finditer_from fl p (x :: bef) t 0
          | [] => []
          end
      end
  end.

Definition re_finditer (fl : flags) (p : pattern) (s : str) : list match_obj :=
  finditer_from fl p [] s 0.

(** What it means for a stretch of the subject to be an instance of a
    pattern, whatever the order in which a matcher would try things:
    [Matches fl p c c'] when the characters between the cursors [c] and [c']
    are an instance of [p]. The matcher is compared with it below. *)
Inductive Matches (fl : flags) : pattern -> cursor -> cursor -> Prop :=
| M_nil c : Matches fl [] c c
| M_one a p b x t c' :
    atom_ok fl a x = true ->
    Matches fl p (x :: b, t) c' ->
    Matches fl (One a :: p) (b, x :: t) c'
| M_star a p b m t c' :
    Forall (fun x => atom_ok fl a x = true) m ->
    Matches fl p (rev m ++ b, t) c' ->
    Matches fl (Star a :: p) (b, m ++ t) c'
| M_plus a p b x m t c' :
    atom_ok fl a x = true ->
    Forall (fun x => atom_ok fl a x = true) m ->
    Matches fl p (rev m ++ x :: b, t) c' ->
    Matches fl (Plus a :: p) (b, x :: m ++ t) c'
| M_lazy a p b m t c' :
    Forall (fun x => atom_ok fl a x = true) m ->
    Matches fl p (rev m ++ b, t) c' ->
    Matches fl (LazyStar a :: p) (b, m ++ t) c'
| M_bol p c c' :
    at_bol fl c = true -> Matches fl p c c' -> Matches fl (Bol :: p) c c'
| M_eol p c c' :
    at_eol fl c = true -> Matches fl p c c' -> Matches fl (Eol :: p) c c'.

End Re.

Import Re.

(** ** The placeholder filter *)

(** The class [\s]. *)
Definition ws : atom := Cls isspace.

Definition IGNORECASE_MULTILINE : flags := Flags true true false.
Definition MULTILINE_DOTALL : flags := Flags false true true.

(** [placeholder_patterns], in the order of the source:
    [^\s*//\s*Your\s+code\s+here\s*$], [^\s*//\s*\.\.\.\s*$],
    [^\s*#\s*\.\.\.\s*$] and [^\s*\.\.\.\s*$]. *)
Definition placeholder_patterns : list pattern :=
  [ [Bol; Star ws] ++ lit "//" ++ [Star ws] ++ lit "Your" ++ [Plus ws]
      ++ lit "code" ++ [Plus ws] ++ lit "here" ++ [Star ws; Eol];
    [Bol; Star ws] ++ lit "//" ++ [Star ws] ++ lit "..." ++ [Star ws; Eol];
    [Bol; Star ws] ++ lit "#" ++ [Star ws] ++ lit "..." ++ [Star ws; Eol];
    [Bol; Star ws] ++ lit "..." ++ [Star ws; Eol] ].

Definition is_placeholder_snippet (code : str) : bool :=
  let code_stripped := str_strip code in
  if existsb (fun pattern =>
                bool_decide (is_Some (re_match IGNORECASE_MULTILINE pattern code_stripped)))
             placeholder_patterns
  then true
  else if length code_stripped <? 10 then true
  else false.

(** ** The line scanner: the first loop of [extract_rust_snippets] *)

Record scan_state := ScanState {
  snippets : list str;
  in_rust_block : bool;
  current_snippet : list str
}.

Definition scan_init : scan_state := ScanState [] false [].

Definition is_open_fence (line : str) : bool :=
  str_startswith (py "```rust") (str_strip line).

Definition is_close_fence (line : str) : bool :=
  str_eqb (str_strip line) (py "```").

(** One iteration of [for line in lines]. *)
Definition scan_line (st : scan_state) (line : str) : scan_state :=
  if is_open_fence line then
    ScanState (snippets st) true []
  else if is_close_fence line && in_rust_block st then
    let snippets' :=
      match current_snippet st with
      | [] => snippets st
      | _ :: _ =>
          let snippet_code := str_strip (str_join_nl (current_snippet st)) in
          if negb (bool_decide (snippet_code = []))
             && negb (is_placeholder_snippet snippet_code)
          then snippets st ++ [snippet_code]
          else snippets st
      end in
    ScanState snippets' false []
  else if in_rust_block st then
    ScanState (snippets st) true (current_snippet st ++ [line])
  else st.

Definition scan_lines (lines : list str) : scan_state :=
  fold_left scan_line lines scan_init.

(** ** The world the script runs in *)

(** The text last written to each path, and the lines printed to the two
    streams, oldest first. *)
Record world := World {
  files : gmap str str;
  stdout : list str;
  stderr : list str
}.

(** A computation changes the world and returns a value or raises an
    exception, of which only the message [str(e)] is kept. What was written
    before an exception stays written. *)
Definition M (A : Type) : Type := world -> (A + str) * world.

Definition ret {A} (a : A) : M A := fun w => (inl a, w).

Definition bind {A B} (m : M A) (f : A -> M B) : M B :=
  fun w => match m w with
           | (inl a, w') => f a w'
           | (inr e, w') => (inr e, w')
           end.

Definition try_except {A} (m : M A) (handler : str -> M A) : M A :=
  fun w => match m w with
           | (inl a, w') => (inl a, w')
           | (inr e, w') => handler e w'
           end.

Notation "'do' x <- m ; k" := (bind m (fun x => k))
  (at level 10, x name, m at level 100, k at level 200).
Notation "'do_' m ; k" := (bind m (fun _ => k))
  (at level 10, m at level 100, k at level 200).

(** [print(line, file=sys.stderr)]: the error stream replaces what its
    encoding cannot represent by an escape, so that the text of the line
    never makes it raise. *)
Definition eprint (line : str) : M unit :=
  fun w => (inl tt, World (files w) (stdout w) (stderr w ++ [line])).

Section Extract.

(** What the interpreter and the operating system decide:
    - the alphanumeric property of the Unicode database for the code points
      above ASCII, which the class [\w] consults;
    - what [open(path, 'r', encoding='utf-8')] followed by [read()] gives at
      the start of the run: the decoded text, or the message of the
      exception raised (missing file, bad encoding);
    - whether [open(path, 'w')] raises, and with which message. A file that
      opens is written in full;
    - whether [print(line)] on the standard output raises, and with which
      message: the stream is strict about what its encoding cannot
      represent (a path with a lone surrogate under UTF-8), and it may be
      closed. A line is printed in full or not at all. *)
Variable unicode_alnum : char -> bool.
Variable read_text : str -> str + str.
Variable open_w_error : str -> option str.
Variable print_error : str -> option str.

(** [print(line)] *)
Definition print (line : str) : M unit :=
  fun w => match print_error line with
           | Some e => (inr e, w)
           | None => (inl tt, World (files w) (stdout w ++ [line]) (stderr w))
           end.

(** The class [\w]. *)
Definition is_word (c : char) : bool :=
  if (c <? 128)%N then
    ((48 <=? c) && (c <=? 57) || (65 <=? c) && (c <=? 90)
     || (97 <=? c) && (c <=? 122) || (c =? 95))%N
  else unicode_alnum c.

Definition word : atom := Cls is_word.

(** [^#\[derive.*?\]\s*\nstruct\s+\w+\s*\{.*?\}] *)
Definition struct_pattern : pattern :=
  [Bol] ++ lit "#[derive" ++ [LazyStar Dot] ++ lit "]" ++ [Star ws; One (Lit nl)]
    ++ lit "struct" ++ [Plus ws; Plus word; Star ws] ++ lit "{"
    ++ [LazyStar Dot] ++ lit "}".

Definition open_read (path : str) : M str :=
  fun w => match read_text path with
           | inl content => (inl content, w)
           | inr e => (inr e, w)
           end.

(** [with open(path, 'w') as f: f.write(data)] *)
Definition open_write (path data : str) : M unit :=
  fun w => match open_w_error path with
           | Some e => (inr e, w)
           | None => (inl tt, World (<[path := data]> (files w)) (stdout w) (stderr w))
           end.

Section Names.

Variables temp_dir safe_name : str.

(** [os.path.join(temp_dir, f"{safe_name}_snippet_{snippet_count}.rs")] *)
Definition snippet_file (snippet_count : nat) : str :=
  os_path_join temp_dir
    (safe_name ++ py "_snippet_" ++ str_of_int snippet_count ++ py ".rs").

(** [os.path.join(temp_dir, f"count_{safe_name}.txt")] *)
Definition count_file : str :=
  os_path_join temp_dir (py "count_" ++ safe_name ++ py ".txt").

(** [for j, match in enumerate(struct_matches)] *)
Fixpoint write_structs (struct_matches : list match_obj) (snippet_count : nat)
    : M nat :=
  match struct_matches with
  | [] => ret snippet_count
  | match_ :: rest =>
      let snippet_count := S snippet_count in
      let struct_code := group0 match_ in
      do_ open_write (snippet_file snippet_count) struct_code;
      write_structs rest snippet_count
  end.

(** [for i, snippet in enumerate(snippets, 1)] *)
Fixpoint write_snippets (snippets : list str) (snippet_count : nat) : M nat :=
  match snippets with
  | [] => ret snippet_count
  | snippet :: rest =>
      let struct_matches := re_finditer MULTILINE_DOTALL struct_pattern snippet in
      do snippet_count <-
        (if 1 <? length struct_matches
         then write_structs struct_matches snippet_count
         else
           let snippet_count := S snippet_count in
           do_ open_write (snippet_file snippet_count) snippet;
           ret snippet_count);
      write_snippets rest snippet_count
  end.

End Names.

Definition extract_rust_snippets (file_path temp_dir safe_name : str) : M Z :=
  try_except
    (do content <- open_read file_path;
     let lines := str_split_nl content in
     let snippets := snippets (scan_lines lines) in
     do snippet_count <- write_snippets temp_dir safe_name snippets 0;
     do_ open_write (count_file temp_dir safe_name) (str_of_int snippet_count);
     do_ print (py "Extracted " ++ str_of_int snippet_count ++ py " snippets from "
                  ++ file_path);
     ret 0%Z)
    (fun e =>
       do_ eprint (py "Error processing " ++ file_path ++ py ": " ++ e);
       ret 1%Z).

Definition usage : str :=
  py "Usage: extract_rust_snippets.py <file_path> <temp_dir> <safe_name>".

(** The [__main__] block: the exit status of the process and the world it
    leaves. *)
Definition main (argv : list str) (w : world) : Z * world :=
  match argv with
  | [_; file_path; temp_dir; safe_name] =>
      match extract_rust_snippets file_path temp_dir safe_name w with
      | (inl status, w') => (status, w')
      | (inr _, w') => (1%Z, w')
      end
  | _ => (1%Z, World (files w) (stdout w) (stderr w ++ [usage]))
  end.

End Extract.

(** ** Derived notions used in the statements *)

(** The first line of a text: what comes before its first newline. *)
Fixpoint first_line (s : str) : str :=
  match s with
  | [] => []
  | c :: s' => if (c =? nl)%N then [] else c :: first_line s'
  end.

(** The output units one kept snippet gives rise to: the two branches of
    the writing loop, without the writing. *)
Definition split_units (unicode_alnum : char -> bool) (snippet : str) : list str :=
  let struct_matches :=
    re_finditer MULTILINE_DOTALL (struct_pattern unicode_alnum) snippet in
  if 1 <? length struct_matches then map group0 struct_matches else [snippet].

Definition output_units (unicode_alnum : char -> bool) (snippets : list str)
    : list str :=
  concat (map (split_units unicode_alnum) snippets).

(** The files after the units [us] were written under the numbers [n+1],
    [n+2], ... *)
Fixpoint write_all (temp_dir safe_name : str) (us : list str) (n : nat)
    (fs : gmap str str) : gmap str str :=
  match us with
  | [] => fs
  | u :: us' =>
      write_all temp_dir safe_name us' (S n)
        (<[snippet_file temp_dir safe_name (S n) := u]> fs)
  end.

(** What closing a block emits, given the lines accumulated in it: the
    stripped text when there are lines, the text is not empty and the filter
    keeps it. *)
Definition block_snippet (body : list str) : list str :=
  match body with
  | [] => []
  | _ :: _ =>
      let snippet_code := str_strip (str_join_nl body) in
      if negb (bool_decide (snippet_code = []))
         && negb (is_placeholder_snippet snippet_code)
      then [snippet_code]
      else []
  end.

(** Matches in the order of the text, one ending before the next begins,
    all between the positions [lo] and [hi]. *)
Fixpoint ordered (lo hi : nat) (ms : list match_obj) : Prop :=
  match ms with
  | [] => True
  | m :: ms' =>
      lo <= m_start m /\ m_start m <= m_end m /\ m_end m <= hi
      /\ ordered (m_end m) hi ms'
  end.

(** [struct_pattern] up to and including the opening brace, and the rest:
    the lazy body and the closing brace. *)
Definition struct_head (unicode_alnum : char -> bool) : list item :=
  [Bol] ++ lit "#[derive" ++ [LazyStar Dot] ++ lit "]" ++ [Star ws; One (Lit nl)]
    ++ lit "struct" ++ [Plus ws; Plus (word unicode_alnum); Star ws] ++ lit "{".

Definition struct_body : list item := [LazyStar Dot] ++ lit "}".

(** The flat loop: write the units [us] under the numbers [n+1], [n+2],
    ..., stopping at the first file that does not open. *)
Fixpoint write_units (open_w_error : str -> option str) (temp_dir safe_name : str)
    (us : list str) (n : nat) : M nat :=
  match us with
  | [] => ret n
  | u :: us' =>
      do_ open_write open_w_error (snippet_file temp_dir safe_name (S n)) u;
      write_units open_w_error temp_dir safe_name us' (S n)
  end.



(** ** Sample texts *)

(** A snippet whose second line is a stub marker. *)
Definition marker_on_second_line : str :=
  str_join_nl [py "fn main() {}"; py "// ..."].

(** A snippet whose first line is a stub marker and which goes on with
    real code. *)
Definition marker_then_code : str :=
  str_join_nl [py "// Your code here"; py "fn add(a: i32, b: i32) -> i32 { a + b }"].

(** A block opened, a first line, a second opening fence, a second line,
    and the closing fence. *)
Definition nested_fence_lines : list str :=
  [py "```rust"; py "fn first() {}"; py "```rust"; py "fn second() {}"; py "```"].

(** An alphanumeric table with nothing above ASCII, a file system where
    every file opens, a standard output that prints every line, and the
    world before anything was written or printed: enough to run the script
    on ASCII documents. *)
Definition ascii_only : char -> bool := fun _ => false.
Definition all_writable : str -> option str := fun _ => None.
Definition all_printable : str -> option str := fun _ => None.
Definition reading (content : str) : str -> str + str := fun _ => inl content.
Definition fresh_world : world := World empty [] [].

Definition doc_one_block : str :=
  str_join_nl [py "# Adding"; py "```rust";
               py "fn add(a: i32, b: i32) -> i32 { a + b }"; py "```"; py "Done."].

(** The same block with blank lines, indentation and trailing blanks
    around the code. *)
Definition doc_padded_block : str :=
  str_join_nl [py "# Adding"; py "```rust"; py "";
               py "    fn add(a: i32, b: i32) -> i32 { a + b }  "; [9%N];
               py "```"; py "Done."].

Definition doc_no_fence : str :=
  str_join_nl [py "# Notes"; py "```python"; py "print(1)"; py "```"].

Definition doc_unterminated : str :=
  str_join_nl [py "```rust"; py "fn add(a: i32, b: i32) -> i32 { a + b }"; py "```";
               py "```rust"; py "fn dangling() {}"].

Definition two_structs : str :=
  str_join_nl [py "#[derive(Debug)]"; py "struct A { a: u8 }";
               py "#[derive(Clone)]"; py "struct B {"; py "  b: u8,"; py "}"].


Definition argv_sample : list str := [py "extract_rust_snippets.py"; py "doc.md"; py "/tmp"; py "doc"].

(** The number of lines that pass a test, such as being a fence. *)
Definition count_lines (test : str -> bool) (lines : list str) : nat :=
  length (List.filter test lines).

(** The number of characters of a list of texts taken together. *)
Definition total_length (texts : list str) : nat :=
  fold_right (fun t n => length t + n) 0 texts.

(** Two blocks, the second tagged with more than the language, and a
    closing fence that belongs to no block. *)
Definition doc_two_blocks_a : list str :=
  [py "Intro"; py "```rust"; py "fn first() -> u8 { 1 }"; py "```"; py "```"].

Definition doc_two_blocks_b : list str :=
  [py "  ```rust,ignore"; py "fn second() -> u8 { 2 }"; py "  ```"].

(** A file system where the second snippet file does not open, one where
    the count file does not, and a document that cannot be read. *)
Definition second_file_locked : str -> option str :=
  fun path => if bool_decide (path = snippet_file (py "/tmp") (py "doc") 2)
              then Some (py "Permission denied") else None.

Definition count_file_locked : str -> option str :=
  fun path => if bool_decide (path = count_file (py "/tmp") (py "doc"))
              then Some (py "Permission denied") else None.

Definition unreadable : str -> str + str :=
  fun _ => inr (py "No such file or directory").

(** A standard output that refuses a line holding a surrogate code point,
    as a strict UTF-8 stream does, and a path that holds one: a file name
    with a byte that is not UTF-8, as the interpreter decodes it. *)
Definition surrogates_refused : str -> option str :=
  fun line => if existsb (fun c => (0xD800 <=? c) && (c <=? 0xDFFF))%N line
              then Some (py "surrogates not allowed") else None.

Definition surrogate_path : str := py "doc" ++ [0xDCFF%N] ++ py ".md".

Definition doc_two_structs : str :=
  str_join_nl [py "```rust"; py "#[derive(Debug)]"; py "struct A { a: u8 }";
               py "#[derive(Clone)]"; py "struct B {"; py "  b: u8,"; py "}"; py "```"].

(** Two texts that differ by the case of their letters at most: character
    by character, the same lower case in the table [unicode_lower], which
    stands for the lower-case mapping of the Unicode database, code point
    to code point. The table is not the one of the matcher. *)
Definition same_up_to_case (unicode_lower : char -> char) (s t : str) : Prop :=
  Forall2 (fun x y => unicode_lower x = unicode_lower y) s t.

(** What is used of that table. On ASCII it maps the capitals to the small
    letters and leaves the rest alone; above ASCII, U+0130 and U+212A
    (Kelvin) have the lower cases [i] and [k], every other code point has a
    lower case above ASCII; and white space has no case, nor is it the
    lower case of anything. *)
Definition lower_table (unicode_lower : char -> char) : Prop :=
  (forall c, (c < 128)%N ->
     unicode_lower c = if (65 <=? c)%N && (c <=? 90)%N then (c + 32)%N else c)
  /\ unicode_lower 0x130%N = 105%N
  /\ unicode_lower 0x212A%N = 107%N
  /\ (forall c, (128 <= c)%N -> c <> 0x130%N -> c <> 0x212A%N ->
        (128 <= unicode_lower c)%N)
  /\ (forall c, (128 <= c)%N -> isspace (unicode_lower c) = isspace c).

(** An item of a pattern that, under the flags [fl], cannot tell apart two
    characters with the same lower case in the table. *)
Definition case_blind (unicode_lower : char -> char) (fl : flags) (i : item)
    : Prop :=
  match i with
  | One a | Star a | Plus a | LazyStar a =>
      forall x y, unicode_lower x = unicode_lower y ->
                  atom_ok fl a x = atom_ok fl a y
  | Bol | Eol => True
  end.

(** The table for texts in Basic Latin and Latin-1: the letters of these
    two blocks and the two code points above. *)
Definition latin1_lower (c : char) : char :=
  if (65 <=? c)%N && (c <=? 90)%N then (c + 32)%N
  else if (0xC0 <=? c)%N && (c <=? 0xDE)%N && negb (c =? 0xD7)%N then (c + 32)%N
  else if (c =? 0x130)%N then 105%N
  else if (c =? 0x212A)%N then 107%N
  else c.

(** The stub marker in capitals, followed by code with a capital E acute,
    and the same text with the case of every letter changed. *)
Definition shouting_marker : str :=
  str_join_nl [py "// YOUR CODE HERE"; py "let caf" ++ [0xC9%N] ++ py " = 1;"].

Definition whispering_marker : str :=
  str_join_nl [py "// your code here"; py "LET CAF" ++ [0xE9%N] ++ py " = 1;"].

(** ** Facts about the string operations *)

Lemma digits_inj d1 d2 : digits d1 = digits d2 -> d1 = d2.
Proof.
  revert d2; induction d1; intros [] H; simpl in H;
    try discriminate; try reflexivity;
    injection H as H; f_equal; auto.
Qed.

Lemma str_of_int_inj n m : str_of_int n = str_of_int m -> n = m.
Proof.
  unfold str_of_int. intros H%digits_inj.
  rewrite <- (Unsigned.of_to n), <- (Unsigned.of_to m). now rewrite H.
Qed.

Lemma startswith_slash b :
  str_startswith (py "/") b = match b with c :: _ => (47 =? c)%N | [] => false end.
Proof. destruct b as [|c b]; simpl; [reflexivity|]. now rewrite andb_true_r. Qed.

(** Joining the same directory with two names that agree on their first
    character is injective. *)
Lemma os_path_join_inj d a b :
  head a = head b -> os_path_join d a = os_path_join d b -> a = b.
Proof.
  unfold os_path_join. rewrite !startswith_slash. intros Hh.
  assert (E : match a with c :: _ => (47 =? c)%N | [] => false end
              = match b with c :: _ => (47 =? c)%N | [] => false end).
  { destruct a, b; cbn [head] in Hh; try discriminate; try reflexivity.
    now injection Hh as ->. }
  rewrite E. destruct (match b with c :: _ => (47 =? c)%N | [] => false end);
    [auto|].
  destruct (bool_decide (d = []) || _); intros H; apply app_inv_head in H;
    [|apply app_inv_head in H]; exact H.
Qed.

Lemma os_path_join_suffix d b : exists pre, os_path_join d b = pre ++ b.
Proof.
  unfold os_path_join.
  destruct (str_startswith _ b); [now exists []|].
  destruct (_ || _); [now exists d|].
  exists (d ++ py "/"). now rewrite <- app_assoc.
Qed.

Section NameFacts.

Variables temp_dir safe_name : str.

Lemma snippet_file_inj n m :
  snippet_file temp_dir safe_name n = snippet_file temp_dir safe_name m -> n = m.
Proof.
  unfold snippet_file. intros H%os_path_join_inj.
  - apply app_inv_head in H. apply app_inv_head in H.
    apply app_inv_tail in H. now apply str_of_int_inj.
  - destruct safe_name; reflexivity.
Qed.

Lemma snippet_file_not_count n :
  snippet_file temp_dir safe_name n <> count_file temp_dir safe_name.
Proof.
  unfold snippet_file, count_file. intros H.
  destruct (os_path_join_suffix temp_dir
              (safe_name ++ py "_snippet_" ++ str_of_int n ++ py ".rs")) as [p1 E1].
  destruct (os_path_join_suffix temp_dir
              (py "count_" ++ safe_name ++ py ".txt")) as [p2 E2].
  rewrite E1, E2 in H.
  apply (f_equal (@last char)) in H.
  rewrite !app_assoc in H.
  change (py ".rs") with ([46; 114]%N ++ [115%N]) in H.
  change (py ".txt") with ([46; 116; 120]%N ++ [116%N]) in H.
  rewrite !app_assoc, !last_snoc in H. discriminate.
Qed.

End NameFacts.

(** ** The matcher against the declarative reading of a pattern *)

Section MatcherFacts.

Variable fl : flags.

Lemma star_greedy_sound ok k bef aft r :
  star_greedy ok k bef aft = Some r ->
  exists m t, aft = m ++ t /\ Forall (fun x => ok x = true) m
              /\ k (rev m ++ bef, t) = Some r.
Proof.
  revert bef. induction aft as [|x aft IH]; intros bef H; simpl in H.
  - exists [], []. auto.
  - destruct (ok x) eqn:Hx.
    + destruct (star_greedy ok k (x :: bef) aft) eqn:Hin.
      * injection H as ->. apply IH in Hin as (m & t & -> & Hm & Hk).
        exists (x :: m), t. repeat split; [now constructor|].
        simpl. now rewrite <- app_assoc.
      * exists [], (x :: aft). auto.
    + exists [], (x :: aft). auto.
Qed.

(** The lazy loop stops at the first place where the rest of the pattern
    matches. *)
Lemma star_lazy_sound ok k bef aft r :
  star_lazy ok k bef aft = Some r ->
  exists m t, aft = m ++ t /\ Forall (fun x => ok x = true) m
              /\ k (rev m ++ bef, t) = Some r
              /\ forall m1 y m2, m = m1 ++ y :: m2 ->
                   k (rev m1 ++ bef, y :: m2 ++ t) = None.
Proof.
  revert bef. induction aft as [|x aft IH]; intros bef H; simpl in H.
  - match type of H with context [k ?c] => destruct (k c) eqn:Hk end;
      [|discriminate].
    exists [], []. split; [reflexivity|]. split; [constructor|].
    split; [injection H as <-; exact Hk|]. intros [] ? ? ?; discriminate.
  - match type of H with context [k ?c] => destruct (k c) eqn:Hk end.
    + exists [], (x :: aft). split; [reflexivity|]. split; [constructor|].
      split; [injection H as <-; exact Hk|]. intros [] ? ? ?; discriminate.
    + destruct (ok x) eqn:Hx; [|discriminate].
      apply IH in H as (m & t & -> & Hm & Hr & Hmin).
      exists (x :: m), t. repeat split; [now constructor| |].
      * simpl. now rewrite <- app_assoc.
      * intros [|z m1] y m2 E; simpl in E; injection E as -> ->.
        -- exact Hk.
        -- simpl. rewrite <- app_assoc. now apply Hmin.
Qed.

Lemma star_greedy_complete ok k m : forall bef t,
  Forall (fun x => ok x = true) m ->
  is_Some (k (rev m ++ bef, t)) ->
  is_Some (star_greedy ok k bef (m ++ t)).
Proof.
  induction m as [|x m IH]; intros bef t Hm Hk.
  - simpl in *. destruct t as [|y t]; simpl; [exact Hk|].
    destruct (ok y); [|exact Hk].
    destruct (star_greedy ok k (y :: bef) t); [eauto|exact Hk].
  - inversion Hm as [|? ? Hx Hm']; subst. simpl. rewrite Hx.
    simpl in Hk. rewrite <- app_assoc in Hk.
    destruct (IH (x :: bef) t Hm' Hk) as [r ->]. eauto.
Qed.

Lemma star_lazy_complete ok k m : forall bef t,
  Forall (fun x => ok x = true) m ->
  is_Some (k (rev m ++ bef, t)) ->
  is_Some (star_lazy ok k bef (m ++ t)).
Proof.
  induction m as [|x m IH]; intros bef t Hm Hk.
  - simpl in *. destruct t; simpl; destruct Hk as [r ->]; eauto.
  - inversion Hm as [|? ? Hx Hm']; subst. simpl.
    destruct (k (bef, x :: m ++ t)); [eauto|]. rewrite Hx.
    simpl in Hk. rewrite <- app_assoc in Hk. now apply IH.
Qed.

(** A match of [p1 ++ p2] found by the matcher is an instance of [p1]
    followed by what the matcher finds for [p2]. *)
Lemma match_here_app p1 p2 : forall c c',
  match_here fl (p1 ++ p2) c = Some c' ->
  exists c1, Matches fl p1 c c1 /\ match_here fl p2 c1 = Some c'.
Proof.
  induction p1 as [|i p1 IH]; intros [b a] c' H.
  - exists (b, a). split; [constructor|exact H].
  - destruct i as [x|x|x|x| |]; simpl in H.
    + destruct a as [|y t]; [discriminate|].
      destruct (atom_ok fl x y) eqn:Hy; [|discriminate].
      apply IH in H as (c1 & HM & H2). exists c1. split; [|exact H2].
      now constructor.
    + apply star_greedy_sound in H as (m & t & -> & Hm & Hk).
      apply IH in Hk as (c1 & HM & H2). exists c1. split; [|exact H2].
      now constructor.
    + destruct a as [|y t]; [discriminate|].
      destruct (atom_ok fl x y) eqn:Hy; [|discriminate].
      apply star_greedy_sound in H as (m & t' & -> & Hm & Hk).
      apply IH in Hk as (c1 & HM & H2). exists c1. split; [|exact H2].
      now constructor.
    + apply star_lazy_sound in H as (m & t & -> & Hm & Hk & _).
      apply IH in Hk as (c1 & HM & H2). exists c1. split; [|exact H2].
      now constructor.
    + destruct (at_bol fl (b, a)) eqn:Hb; [|discriminate].
      apply IH in H as (c1 & HM & H2). exists c1. split; [|exact H2].
      now constructor.
    + destruct (at_eol fl (b, a)) eqn:Hb; [|discriminate].
      apply IH in H as (c1 & HM & H2). exists c1. split; [|exact H2].
      now constructor.
Qed.

(** Soundness: what the matcher returns is an instance of the pattern. *)
Lemma match_here_sound p c c' :
  match_here fl p c = Some c' -> Matches fl p c c'.
Proof.
  intros H. rewrite <- (app_nil_r p) in H.
  apply match_here_app in H as (c1 & HM & H2).
  simpl in H2. now injection H2 as <-.
Qed.

(** Completeness: where the pattern has an instance, the matcher finds a
    match (the one Python prefers, not necessarily that instance). *)
Lemma match_here_complete p c c' :
  Matches fl p c c' -> is_Some (match_here fl p c).
Proof.
  induction 1 as [c|a p b x t c' Hx _ IH|a p b m t c' Hm _ IH
                 |a p b x m t c' Hx Hm _ IH|a p b m t c' Hm _ IH
                 |p c c' Hb _ IH|p c c' Hb _ IH]; simpl.
  - eauto.
  - now rewrite Hx.
  - now apply star_greedy_complete.
  - rewrite Hx. now apply star_greedy_complete.
  - now apply star_lazy_complete.
  - now rewrite Hb.
  - now rewrite Hb.
Qed.

(** An instance of a pattern is a stretch of the subject: the end cursor
    is the start cursor moved over some characters [m]. *)
Lemma Matches_span p c c' :
  Matches fl p c c' ->
  exists m, snd c = m ++ snd c' /\ fst c' = rev m ++ fst c.
Proof.
  induction 1 as [c|a p b x t c' Hx _ IH|a p b m t c' Hm _ IH
                 |a p b x m t c' Hx Hm _ IH|a p b m t c' Hm _ IH
                 |p c c' Hb _ IH|p c c' Hb _ IH]; simpl in *.
  - now exists [].
  - destruct IH as (m & -> & ->). exists (x :: m). simpl.
    now rewrite <- app_assoc.
  - destruct IH as (m' & -> & ->). exists (m ++ m').
    now rewrite rev_app_distr, <- !app_assoc.
  - destruct IH as (m' & -> & ->). exists (x :: m ++ m'). simpl.
    now rewrite rev_app_distr, <- !app_assoc.
  - destruct IH as (m' & -> & ->). exists (m ++ m').
    now rewrite rev_app_distr, <- !app_assoc.
  - exact IH.
  - exact IH.
Qed.

(** Under MULTILINE an instance stays one when the subject goes on after
    it with a newline: [$] holds before a newline as it does at the end. *)
Lemma Matches_extend p c c' rest :
  MULTILINE fl = true ->
  (rest = [] \/ head rest = Some nl) ->
  Matches fl p c c' ->
  Matches fl p (fst c, snd c ++ rest) (fst c', snd c' ++ rest).
Proof.
  intros Hml Hrest.
  induction 1 as [c|a p b x t c' Hx _ IH|a p b m t c' Hm _ IH
                 |a p b x m t c' Hx Hm _ IH|a p b m t c' Hm _ IH
                 |p c c' Hb _ IH|p c c' Hb _ IH]; simpl in *.
  - constructor.
  - now constructor.
  - rewrite <- app_assoc. now constructor.
  - rewrite <- app_assoc. now constructor.
  - rewrite <- app_assoc. now constructor.
  - constructor; [exact Hb|exact IH].
  - constructor; [|exact IH].
    unfold at_eol in *. simpl. destruct c as [b [|y t]]; simpl in *.
    + destruct Hrest as [->|Hh]; [reflexivity|].
      destruct rest as [|z r]; [reflexivity|]. simpl in Hh.
      injection Hh as ->. now rewrite Hml.
    + rewrite Hml in *. simpl in *. exact Hb.
Qed.

End MatcherFacts.

(** ** The placeholder filter *)

Lemma first_line_split s :
  exists rest, s = first_line s ++ rest /\ (rest = [] \/ head rest = Some nl).
Proof.
  induction s as [|c s (rest & E & Hr)]; simpl.
  - exists []. auto.
  - destruct (c =? nl)%N eqn:Hc.
    + apply N.eqb_eq in Hc as ->. exists (nl :: s). auto.
    + exists rest. split; [simpl; f_equal; exact E|exact Hr].
Qed.

Lemma lstrip_head s c : head (lstrip s) = Some c -> isspace c = false.
Proof.
  induction s as [|x s IH]; simpl; [discriminate|].
  destruct (isspace x) eqn:Hx; [exact IH|].
  simpl. now intros [= <-].
Qed.

Lemma lstrip_suffix s : exists pre, s = pre ++ lstrip s.
Proof.
  induction s as [|x s [pre IH]]; simpl; [now exists []|].
  destruct (isspace x); [|now exists []].
  exists (x :: pre). simpl. now rewrite <- IH.
Qed.

Lemma rstrip_prefix s : exists t, s = rstrip s ++ t.
Proof.
  unfold rstrip. destruct (lstrip_suffix (rev s)) as [pre E].
  exists (rev pre). rewrite <- rev_app_distr, <- E. now rewrite rev_involutive.
Qed.

(** Stripped text does not begin with white space. *)
Lemma str_strip_head s c : head (str_strip s) = Some c -> isspace c = false.
Proof.
  unfold str_strip. intros H. apply (lstrip_head s).
  destruct (rstrip_prefix (lstrip s)) as [t E]. rewrite E.
  destruct (rstrip (lstrip s)); [discriminate|exact H].
Qed.

Lemma lstrip_id s :
  (forall c, head s = Some c -> isspace c = false) -> lstrip s = s.
Proof.
  destruct s as [|x s]; intros H; [reflexivity|].
  simpl. now rewrite (H x eq_refl).
Qed.

Lemma lstrip_lstrip s : lstrip (lstrip s) = lstrip s.
Proof. apply lstrip_id. apply lstrip_head. Qed.

(** Stripping twice is stripping once. *)
Lemma str_strip_idem s : str_strip (str_strip s) = str_strip s.
Proof.
  change (rstrip (lstrip (str_strip s)) = str_strip s).
  rewrite (lstrip_id (str_strip s)) by apply str_strip_head.
  unfold str_strip, rstrip.
  now rewrite rev_involutive, lstrip_lstrip.
Qed.

Lemma lstrip_spaces pad s :
  Forall (fun c => isspace c = true) pad -> lstrip (pad ++ s) = lstrip s.
Proof.
  induction 1 as [|c pad Hc _ IH]; [reflexivity|]. simpl. now rewrite Hc.
Qed.

Lemma rstrip_spaces s pad :
  Forall (fun c => isspace c = true) pad -> rstrip (s ++ pad) = rstrip s.
Proof.
  intros H. unfold rstrip. rewrite rev_app_distr, lstrip_spaces; [reflexivity|].
  induction H as [|c pad Hc _ IH]; simpl; [constructor|].
  apply Forall_app. split; [exact IH|]. now constructor.
Qed.

Lemma str_strip_padding pad1 s pad2 :
  Forall (fun c => isspace c = true) pad1 ->
  Forall (fun c => isspace c = true) pad2 ->
  str_strip (pad1 ++ s ++ pad2) = str_strip s.
Proof.
  intros H1 H2. unfold str_strip. rewrite lstrip_spaces by exact H1.
  induction s as [|c s IH]; simpl.
  - rewrite <- (app_nil_r pad2), lstrip_spaces by exact H2. reflexivity.
  - destruct (isspace c); [exact IH|].
    exact (rstrip_spaces (c :: s) pad2 H2).
Qed.

Lemma head_rev (s : list N) : head (rev s) = last s.
Proof.
  induction s as [|x s _] using rev_ind; [reflexivity|].
  now rewrite rev_app_distr, last_snoc.
Qed.

(** Text that neither begins nor ends with white space is left alone. *)
Lemma str_strip_id s :
  (forall c, head s = Some c -> isspace c = false) ->
  (forall c, last s = Some c -> isspace c = false) ->
  str_strip s = s.
Proof.
  intros Hh Hl. unfold str_strip, rstrip. rewrite (lstrip_id s Hh).
  rewrite lstrip_id; [apply rev_involutive|].
  intros c Hc. rewrite head_rev in Hc. now apply Hl.
Qed.

(** Stripping removes the white space around a text and nothing else. *)
Lemma str_strip_exact pad1 s pad2 :
  Forall (fun c => isspace c = true) pad1 ->
  Forall (fun c => isspace c = true) pad2 ->
  (forall c, head s = Some c -> isspace c = false) ->
  (forall c, last s = Some c -> isspace c = false) ->
  str_strip (pad1 ++ s ++ pad2) = s.
Proof.
  intros H1 H2 Hh Hl. rewrite str_strip_padding by assumption.
  now apply str_strip_id.
Qed.

Lemma lower_not_letter x c :
  (c < 65)%N -> (lower x =? lower c)%N = true -> x = c.
Proof.
  intros Hc H. apply N.eqb_eq in H. revert H. unfold lower.
  destruct (N.leb_spec 65 x), (N.leb_spec x 90), (N.eqb_spec x 0x130),
    (N.eqb_spec x 0x212A), (N.leb_spec 65 c), (N.leb_spec c 90),
    (N.eqb_spec c 0x130), (N.eqb_spec c 0x212A); simpl; lia.
Qed.

(** Every stub-marker pattern asks, after optional white space at the start
    of a line, for one of [/], [#] and [.]. *)
Lemma placeholder_patterns_first pattern :
  In pattern placeholder_patterns ->
  exists c0 rest, pattern = Bol :: Star ws :: One (Lit c0) :: rest
                  /\ (c0 = 47 \/ c0 = 35 \/ c0 = 46)%N.
Proof.
  intros H. repeat (destruct H as [<-|H]); [..|destruct H];
    eexists _, _; (split; [reflexivity|]); auto.
Qed.

Lemma is_placeholder_snippet_true code :
  is_placeholder_snippet code = true <->
  (exists pattern, In pattern placeholder_patterns
     /\ is_Some (re_match IGNORECASE_MULTILINE pattern (str_strip code)))
  \/ length (str_strip code) < 10.
Proof.
  unfold is_placeholder_snippet.
  destruct (existsb _ placeholder_patterns) eqn:He.
  - split; [|reflexivity]. intros _. left.
    apply existsb_exists in He as (pattern & Hin & Hm).
    exists pattern. split; [exact Hin|]. now apply bool_decide_eq_true in Hm.
  - split.
    + destruct (length (str_strip code) <? 10) eqn:Hl; [|discriminate].
      intros _. right. now apply Nat.ltb_lt.
    + intros [(pattern & Hin & Hm)|Hl].
      * assert (existsb (fun pattern => bool_decide (is_Some
                  (re_match IGNORECASE_MULTILINE pattern (str_strip code))))
                  placeholder_patterns = true) as E; [|congruence].
        apply existsb_exists. exists pattern. split; [exact Hin|].
        now apply bool_decide_eq_true.
      * apply Nat.ltb_lt in Hl. now rewrite Hl.
Qed.

(** C4, as amended: the filter discards a snippet exactly when one of the
    stub-marker patterns has an instance (case-insensitively) that begins at
    the very first character of the stripped text, or the stripped text is
    shorter than 10 characters. A marker beginning on a later line does not
    count: stripped text of 10 characters or more whose first character is
    none of [/], [#] and [.] is kept whatever its other lines are. *)
Theorem placeholder_filter_anchored_at_start (code : str) :
  (is_placeholder_snippet code = true <->
   (exists pattern c', In pattern placeholder_patterns
      /\ Matches IGNORECASE_MULTILINE pattern ([], str_strip code) c')
   \/ length (str_strip code) < 10)
  /\ (10 <= length (str_strip code) ->
      (forall c, head (str_strip code) = Some c -> c <> 47 /\ c <> 35 /\ c <> 46)%N ->
      is_placeholder_snippet code = false).
Proof.
  assert (Hiff : is_placeholder_snippet code = true <->
    (exists pattern c', In pattern placeholder_patterns
       /\ Matches IGNORECASE_MULTILINE pattern ([], str_strip code) c')
    \/ length (str_strip code) < 10).
  { rewrite is_placeholder_snippet_true. split.
    - intros [(pattern & Hin & [c' Hm])|Hl]; [left|now right].
      exists pattern, c'. split; [exact Hin|]. now apply match_here_sound.
    - intros [(pattern & c' & Hin & Hm)|Hl]; [left|now right].
      exists pattern. split; [exact Hin|].
      now apply match_here_complete with (c' := c'). }
  split; [exact Hiff|].
  intros Hlen Hhead. apply not_true_is_false. intros Ht.
  apply Hiff in Ht as [(pattern & c' & Hin & Hm)|Hl]; [|lia].
  apply placeholder_patterns_first in Hin as (c0 & rest & -> & Hc0).
  inversion Hm as [| | | | |p c1 c2 _ Hm1|]; subst.
  inversion Hm1 as [| |a p b m t c2 Hsp Hm2 E1 E2| | | |]; subst.
  inversion Hm2 as [|a p b x t' c2 Hx _ E1 E2| | | | |]; subst.
  destruct m as [|y m].
  - simpl in *. cbn in Hx. apply lower_not_letter in Hx; [|lia].
    match goal with E : _ = str_strip code |- _ => rewrite <- E in Hhead end.
    destruct (Hhead x eq_refl) as (? & ? & ?). lia.
  - inversion Hsp as [|? ? Hy _]; subst.
    match goal with E : _ = str_strip code |- _ =>
      assert (Hh : head (str_strip code) = Some y) by now rewrite <- E end.
    apply str_strip_head in Hh. cbn in Hy. congruence.
Qed.

(** C10: a snippet whose first line, once the snippet is stripped, is a
    stub-marker line is discarded, whatever follows that line. *)
Theorem first_line_marker_discards (code : str) (pattern : list item) :
  In pattern placeholder_patterns ->
  is_Some (re_match IGNORECASE_MULTILINE pattern (first_line (str_strip code))) ->
  is_placeholder_snippet code = true.
Proof.
  intros Hin [c' Hm]. apply is_placeholder_snippet_true. left.
  exists pattern. split; [exact Hin|].
  apply match_here_sound in Hm.
  destruct (first_line_split (str_strip code)) as (rest & E & Hrest).
  apply (Matches_extend IGNORECASE_MULTILINE _ _ _ rest eq_refl Hrest) in Hm.
  simpl in Hm.
  rewrite <- E in Hm. now apply match_here_complete in Hm.
Qed.

(** C4, as stated, fails: the second line of this snippet is a stub-marker
    line, and the filter keeps the snippet. *)
Lemma marker_on_later_line_is_kept :
  (exists line pattern,
     In line (str_split_nl (str_strip marker_on_second_line))
     /\ In pattern placeholder_patterns
     /\ is_Some (re_match IGNORECASE_MULTILINE pattern line))
  /\ is_placeholder_snippet marker_on_second_line = false.
Proof.
  split.
  - exists (py "// ..."), (nth 1 placeholder_patterns []).
    split; [right; left; reflexivity|].
    split; [right; left; reflexivity|].
    vm_compute. eauto.
  - vm_compute. reflexivity.
Qed.

Lemma placeholder_filter_anchored_witness :
  10 <= length (str_strip marker_on_second_line)
  /\ is_placeholder_snippet marker_on_second_line = false.
Proof.
  split; [vm_compute; lia|].
  apply (proj2 (placeholder_filter_anchored_at_start marker_on_second_line)).
  - vm_compute; lia.
  - intros c Hc. vm_compute in Hc. injection Hc as <-.
    repeat split; discriminate.
Defined.

Lemma first_line_marker_witness :
  In (nth 0 placeholder_patterns []) placeholder_patterns
  /\ 10 <= length (str_strip marker_then_code)
  /\ is_placeholder_snippet marker_then_code = true.
Proof.
  split; [left; reflexivity|]. split; [vm_compute; lia|].
  apply (first_line_marker_discards marker_then_code (nth 0 placeholder_patterns [])).
  - left; reflexivity.
  - vm_compute. eauto.
Defined.

(** ** The line scanner *)

Lemma close_fence_not_open line :
  is_close_fence line = true -> is_open_fence line = false.
Proof.
  unfold is_close_fence, is_open_fence, str_eqb.
  intros H%bool_decide_eq_true. now rewrite H.
Qed.

Lemma scan_line_open st line :
  is_open_fence line = true -> scan_line st line = ScanState (snippets st) true [].
Proof. unfold scan_line. now intros ->. Qed.

Lemma scan_line_close st line :
  is_close_fence line = true -> in_rust_block st = true ->
  scan_line st line
  = ScanState (snippets st ++ block_snippet (current_snippet st)) false [].
Proof.
  intros Hc Hin. unfold scan_line, block_snippet.
  rewrite (close_fence_not_open _ Hc), Hc, Hin. simpl.
  destruct (current_snippet st); [now rewrite app_nil_r|].
  destruct (_ && _); [reflexivity|now rewrite app_nil_r].
Qed.

Lemma scan_line_inside st line :
  is_open_fence line = false -> is_close_fence line = false ->
  in_rust_block st = true ->
  scan_line st line = ScanState (snippets st) true (current_snippet st ++ [line]).
Proof. intros Ho Hc Hin. unfold scan_line. now rewrite Ho, Hc, Hin. Qed.

Lemma scan_line_outside st line :
  is_open_fence line = false -> in_rust_block st = false -> scan_line st line = st.
Proof.
  intros Ho Hin. unfold scan_line. rewrite Ho, Hin. now rewrite andb_false_r.
Qed.

(** Outside a block, lines that open none leave the state as it is. *)
Lemma scan_outside lines : forall st,
  in_rust_block st = false ->
  Forall (fun l => is_open_fence l = false) lines ->
  fold_left scan_line lines st = st.
Proof.
  induction lines as [|l lines IH]; intros st Hin Hl; [reflexivity|].
  inversion Hl; subst. simpl. rewrite scan_line_outside by assumption. now apply IH.
Qed.

(** Inside a block, lines that are no fence are accumulated. *)
Lemma scan_body body : forall st,
  in_rust_block st = true ->
  Forall (fun l => is_open_fence l = false /\ is_close_fence l = false) body ->
  fold_left scan_line body st
  = ScanState (snippets st) true (current_snippet st ++ body).
Proof.
  induction body as [|l body IH]; intros st Hin Hb; simpl.
  - rewrite app_nil_r. destruct st; simpl in *. now subst.
  - inversion Hb as [|? ? [Ho Hc] Hb']; subst.
    rewrite scan_line_inside by assumption. rewrite IH by auto. simpl.
    now rewrite <- app_assoc.
Qed.

(** Without a closing fence no snippet is emitted. *)
Lemma scan_unclosed lines : forall st,
  Forall (fun l => is_close_fence l = false) lines ->
  snippets (fold_left scan_line lines st) = snippets st.
Proof.
  induction lines as [|l lines IH]; intros st Hl; [reflexivity|].
  inversion Hl as [|? ? Hc Hl']; subst. simpl. rewrite IH by assumption.
  unfold scan_line. rewrite Hc. simpl.
  destruct (is_open_fence l); [reflexivity|]. now destruct (in_rust_block st).
Qed.

(** C5, as stated, fails: after a block was opened and a line accumulated,
    a second opening fence is not appended to the accumulator, and the line
    accumulated before it is lost; the block, once closed, gives the second
    line alone. *)
Lemma nested_open_fence_drops_accumulator :
  let st := fold_left scan_line (take 2 nested_fence_lines) scan_init in
  let nested := py "```rust" in
  in_rust_block st = true
  /\ current_snippet st = [py "fn first() {}"]
  /\ is_open_fence nested = true
  /\ current_snippet (scan_line st nested) <> current_snippet st ++ [nested]
  /\ current_snippet (scan_line st nested) = []
  /\ snippets (scan_lines nested_fence_lines) = [py "fn second() {}"].
Proof. vm_compute. repeat split; discriminate. Qed.

(** C5, as amended: an opening fence met inside a block restarts the
    block. The scanner stays inside, the accumulator is emptied (the lines
    accumulated so far are dropped and the fence line itself is not kept),
    and when the block is then closed the snippet is made of the lines
    after that fence only. *)
Theorem nested_open_fence_restarts_block (st : scan_state) (nested : str)
    (body : list str) (close : str) :
  in_rust_block st = true ->
  is_open_fence nested = true ->
  Forall (fun l => is_open_fence l = false /\ is_close_fence l = false) body ->
  is_close_fence close = true ->
  scan_line st nested = ScanState (snippets st) true []
  /\ fold_left scan_line (nested :: body ++ [close]) st
     = ScanState (snippets st ++ block_snippet body) false [].
Proof.
  intros Hin Hn Hb Hc. split; [now apply scan_line_open|].
  simpl. rewrite (scan_line_open _ _ Hn), fold_left_app.
  rewrite (scan_body body) by auto. simpl.
  now rewrite scan_line_close by (simpl; auto).
Qed.

Lemma nested_open_fence_witness :
  snippets (scan_lines nested_fence_lines) = [py "fn second() {}"].
Proof.
  pose proof (nested_open_fence_restarts_block
    (fold_left scan_line (take 2 nested_fence_lines) scan_init)
    (py "```rust") [py "fn second() {}"] (py "```")
    eq_refl eq_refl) as H.
  destruct H as [_ H].
  - repeat constructor.
  - reflexivity.
  - unfold scan_lines.
    change nested_fence_lines
      with (take 2 nested_fence_lines
              ++ py "```rust" :: [py "fn second() {}"] ++ [py "```"]).
    rewrite fold_left_app, H. reflexivity.
Defined.

(** ** The writing loops *)

Section RunFacts.

Variable unicode_alnum : char -> bool.
Variable read_text : str -> str + str.
Variable open_w_error : str -> option str.
Variable print_error : str -> option str.
Variables temp_dir safe_name : str.

Local Abbreviation sf := (snippet_file temp_dir safe_name).
Local Abbreviation cf := (count_file temp_dir safe_name).
Local Abbreviation flat := (write_units open_w_error temp_dir safe_name).

Lemma bind_ext {A B} (m : M A) (f g : A -> M B) w :
  (forall a w', f a w' = g a w') -> bind m f w = bind m g w.
Proof. intros H. unfold bind. destruct (m w) as [[a|e] w']; auto. Qed.

Lemma write_structs_flat ms : forall n w,
  write_structs open_w_error temp_dir safe_name ms n w = flat (map group0 ms) n w.
Proof.
  induction ms as [|m ms IH]; intros n w; [reflexivity|].
  simpl. apply bind_ext. intros _ w'. apply IH.
Qed.

Lemma write_units_app us1 us2 : forall n w,
  flat (us1 ++ us2) n w = bind (flat us1 n) (flat us2) w.
Proof.
  induction us1 as [|u us1 IH]; intros n w; [reflexivity|].
  simpl. unfold bind in *.
  destruct (open_write open_w_error (sf (S n)) u w) as [[[]|e] w'];
    [apply IH|reflexivity].
Qed.

(** The two nested loops write what the flat loop writes for the output
    units of the snippets. *)
Lemma write_snippets_flat snippets : forall n w,
  write_snippets unicode_alnum open_w_error temp_dir safe_name snippets n w
  = flat (output_units unicode_alnum snippets) n w.
Proof.
  induction snippets as [|s rest IH]; intros n w; [reflexivity|].
  unfold output_units. simpl. fold (output_units unicode_alnum rest).
  rewrite write_units_app. unfold split_units.
  destruct (1 <? length _).
  - unfold bind at 1 2. rewrite write_structs_flat.
    destruct (flat _ n w) as [[k|e] w']; [apply IH|reflexivity].
  - simpl. unfold bind, ret.
    destruct (open_write open_w_error (sf (S n)) s w) as [[[]|e] w'];
      [apply IH|reflexivity].
Qed.

Lemma write_units_cases us : forall n w,
  ((forall j, j < length us -> open_w_error (sf (S (n + j))) = None)
   /\ flat us n w
      = (inl (n + length us),
         World (write_all temp_dir safe_name us n (files w)) (stdout w) (stderr w)))
  \/ (exists j e, j < length us
        /\ open_w_error (sf (S (n + j))) = Some e
        /\ flat us n w
           = (inr e, World (write_all temp_dir safe_name (take j us) n (files w))
                           (stdout w) (stderr w))).
Proof.
  induction us as [|u us IH]; intros n w.
  - left. split; [simpl; lia|]. simpl. rewrite Nat.add_0_r. now destruct w.
  - simpl. unfold bind, open_write.
    destruct (open_w_error (sf (S n))) as [e|] eqn:Ho.
    + right. exists 0, e. rewrite Nat.add_0_r. split; [lia|]. split; [exact Ho|].
      simpl. now destruct w.
    + destruct (IH (S n)
                 (World (<[sf (S n) := u]> (files w)) (stdout w) (stderr w)))
        as [[Hok E]|(j & e & Hj & He & E)].
      * left. split.
        -- intros [|j] Hj; [now rewrite Nat.add_0_r|].
           rewrite Nat.add_succ_r. apply (Hok j). lia.
        -- rewrite E. simpl. now rewrite Nat.add_succ_r.
      * right. exists (S j), e. split; [lia|].
        rewrite Nat.add_succ_r. split; [exact He|]. rewrite E. reflexivity.
Qed.

Lemma write_all_other us : forall n fs p,
  (forall j, j < length us -> p <> sf (S (n + j))) ->
  write_all temp_dir safe_name us n fs !! p = fs !! p.
Proof.
  induction us as [|u us IH]; intros n fs p Hp; [reflexivity|].
  simpl. rewrite IH.
  - apply lookup_insert_ne. specialize (Hp 0). rewrite Nat.add_0_r in Hp.
    intros E. apply Hp; [simpl; lia|now symmetry].
  - intros j Hj. specialize (Hp (S j)). rewrite Nat.add_succ_r in Hp.
    apply Hp. simpl. lia.
Qed.

Lemma write_all_lookup us : forall n fs j,
  j < length us ->
  write_all temp_dir safe_name us n fs !! sf (S (n + j)) = us !! j.
Proof.
  induction us as [|u us IH]; intros n fs j Hj; [simpl in Hj; lia|].
  simpl. destruct j as [|j].
  - rewrite Nat.add_0_r. rewrite write_all_other.
    + apply lookup_insert_eq.
    + intros j _ E%snippet_file_inj. lia.
  - rewrite Nat.add_succ_r. apply (IH (S n)). simpl in Hj. lia.
Qed.

(** The outcomes of a run: status 0 with every unit written, the count
    file written and the summary printed; or status 1 with a diagnostic
    for the first failure on the error stream. *)
Lemma extract_cases file_path w :
  let run := extract_rust_snippets unicode_alnum read_text open_w_error print_error
               file_path temp_dir safe_name w in
  (exists content,
     let us := output_units unicode_alnum
                 (snippets (scan_lines (str_split_nl content))) in
     let summary := py "Extracted " ++ str_of_int (length us)
                      ++ py " snippets from " ++ file_path in
     read_text file_path = inl content
     /\ (forall j, j < length us -> open_w_error (sf (S j)) = None)
     /\ open_w_error cf = None
     /\ print_error summary = None
     /\ run = (inl 0%Z,
               World (<[cf := str_of_int (length us)]>
                        (write_all temp_dir safe_name us 0 (files w)))
                     (stdout w ++ [summary])
                     (stderr w)))
  \/ (exists e w',
        run = (inl 1%Z, w')
        /\ stdout w' = stdout w
        /\ stderr w' = stderr w ++ [py "Error processing " ++ file_path ++ py ": " ++ e]
        /\ (read_text file_path = inr e
            \/ exists content,
                 let us := output_units unicode_alnum
                             (snippets (scan_lines (str_split_nl content))) in
                 read_text file_path = inl content
                 /\ ((exists j, j < length us /\ open_w_error (sf (S j)) = Some e)
                     \/ open_w_error cf = Some e
                     \/ ((forall j, j < length us -> open_w_error (sf (S j)) = None)
                         /\ open_w_error cf = None
                         /\ print_error (py "Extracted " ++ str_of_int (length us)
                                           ++ py " snippets from " ++ file_path)
                            = Some e
                         /\ files w' = <[cf := str_of_int (length us)]>
                                         (write_all temp_dir safe_name us 0 (files w)))))).
Proof.
  intros run. subst run.
  unfold extract_rust_snippets, try_except, bind, open_read, open_write,
    print, eprint, ret.
  destruct (read_text file_path) as [content|e] eqn:Hr.
  - rewrite write_snippets_flat.
    destruct (write_units_cases
                (output_units unicode_alnum
                   (snippets (scan_lines (str_split_nl content)))) 0 w)
      as [[Hok E]|(j & e & Hj & He & E)]; rewrite E; simpl.
    + destruct (open_w_error cf) as [e|] eqn:Hc; simpl.
      * right. eexists e, _. split; [reflexivity|]. simpl.
        split; [reflexivity|]. split; [reflexivity|]. right.
        exists content. split; [reflexivity|]. right. now left.
      * destruct (print_error _) as [e|] eqn:Hp; simpl.
        -- right. eexists e, _. split; [reflexivity|]. simpl.
           split; [reflexivity|]. split; [reflexivity|]. right.
           exists content. split; [reflexivity|]. right; right. auto.
        -- left. exists content. split; [reflexivity|]. split; [exact Hok|].
           split; [reflexivity|]. split; [exact Hp|]. reflexivity.
    + right. eexists e, _. split; [reflexivity|]. simpl.
      split; [reflexivity|]. split; [reflexivity|]. right.
      exists content. split; [reflexivity|]. left. now exists j.
  - right. eexists e, _. split; [reflexivity|]. simpl.
    split; [reflexivity|]. split; [reflexivity|]. now left.
Qed.

Lemma extract_ok file_path content w :
  let us := output_units unicode_alnum
              (snippets (scan_lines (str_split_nl content))) in
  let summary := py "Extracted " ++ str_of_int (length us)
                   ++ py " snippets from " ++ file_path in
  read_text file_path = inl content ->
  (forall j, j < length us -> open_w_error (sf (S j)) = None) ->
  open_w_error cf = None ->
  print_error summary = None ->
  extract_rust_snippets unicode_alnum read_text open_w_error print_error
    file_path temp_dir safe_name w
  = (inl 0%Z,
     World (<[cf := str_of_int (length us)]>
              (write_all temp_dir safe_name us 0 (files w)))
           (stdout w ++ [summary])
           (stderr w)).
Proof.
  intros us summary Hr Hok Hc Hp.
  destruct (extract_cases file_path w)
    as [(content' & Hr' & _ & _ & _ & E)|(e & w' & _ & _ & _ & Hcause)].
  - rewrite Hr in Hr'. injection Hr' as <-. exact E.
  - exfalso. destruct Hcause as [Hr'|(content' & Hr' & Hw)]; [congruence|].
    rewrite Hr in Hr'. injection Hr' as <-.
    destruct Hw as [(j & Hj & He)|[He|(_ & _ & He & _)]].
    + rewrite (Hok j Hj) in He. discriminate.
    + congruence.
    + subst us summary. congruence.
Qed.

(** A run sees the document only through the snippets the scanner
    extracts from it. *)
Lemma extract_same_snippets (read_text' : str -> str + str) file_path
    content content' w :
  read_text file_path = inl content ->
  read_text' file_path = inl content' ->
  snippets (scan_lines (str_split_nl content))
  = snippets (scan_lines (str_split_nl content')) ->
  extract_rust_snippets unicode_alnum read_text open_w_error print_error
    file_path temp_dir safe_name w
  = extract_rust_snippets unicode_alnum read_text' open_w_error print_error
      file_path temp_dir safe_name w.
Proof.
  intros H1 H2 E. unfold extract_rust_snippets, try_except, bind, open_read.
  now rewrite H1, H2, E.
Qed.

End RunFacts.

(** ** Splitting and joining lines *)

Lemma str_split_nl_no_nl s : Forall (fun l => ~ In nl l) (str_split_nl s).
Proof.
  induction s as [|c s IH]; simpl.
  - repeat constructor. intros [].
  - destruct (N.eqb_spec c nl) as [->|Hc].
    + constructor; [intros []|exact IH].
    + destruct (str_split_nl s) as [|l ls].
      * repeat constructor. intros [E|[]]. congruence.
      * inversion IH as [|? ? Hl Hls]; subst. constructor; [|exact Hls].
        intros [E|Hin]; [congruence|contradiction].
Qed.

Lemma str_split_nl_line l : ~ In nl l -> str_split_nl l = [l].
Proof.
  induction l as [|c l IH]; intros Hl; simpl; [reflexivity|].
  destruct (N.eqb_spec c nl) as [->|Hc]; [exfalso; apply Hl; now left|].
  rewrite IH; [reflexivity|]. intros Hin. apply Hl. now right.
Qed.

Lemma str_split_nl_app l r :
  ~ In nl l -> str_split_nl (l ++ nl :: r) = l :: str_split_nl r.
Proof.
  induction l as [|c l IH]; intros Hl; simpl.
  - reflexivity.
  - destruct (N.eqb_spec c nl) as [->|Hc]; [exfalso; apply Hl; now left|].
    rewrite IH; [reflexivity|]. intros Hin. apply Hl. now right.
Qed.

Lemma str_split_join ls :
  ls <> [] -> Forall (fun l => ~ In nl l) ls -> str_split_nl (str_join_nl ls) = ls.
Proof.
  induction ls as [|l ls IH]; intros Hne Hls; [congruence|].
  inversion Hls as [|? ? Hl Hls']; subst.
  destruct ls as [|l2 ls].
  - simpl. now apply str_split_nl_line.
  - change (str_join_nl (l :: l2 :: ls)) with (l ++ nl :: str_join_nl (l2 :: ls)).
    rewrite str_split_nl_app by assumption. now rewrite IH.
Qed.

(** ** The claims about whole runs *)

Section Runs.

Variable unicode_alnum : char -> bool.
Variable read_text : str -> str + str.
Variable open_w_error : str -> option str.
Variable print_error : str -> option str.
Variables file_path temp_dir safe_name : str.

Local Abbreviation sf := (snippet_file temp_dir safe_name).
Local Abbreviation cf := (count_file temp_dir safe_name).
Local Abbreviation run :=
  (extract_rust_snippets unicode_alnum read_text open_w_error print_error
     file_path temp_dir safe_name).

(** C1: when a run completes successfully, the count file holds the decimal
    string of the number [k] of output units, the files numbered 1 to [k]
    hold the units in order, these [k] paths are distinct from one another
    and from the count file, and the run wrote no other file. *)
Theorem count_file_matches_snippet_files (w w' : world) :
  run w = (inl 0%Z, w') ->
  exists content,
    read_text file_path = inl content
    /\ let us := output_units unicode_alnum
                   (snippets (scan_lines (str_split_nl content))) in
       let k := length us in
       files w' !! cf = Some (str_of_int k)
       /\ (forall i, i < k -> files w' !! sf (S i) = us !! i)
       /\ (forall i j, sf i = sf j -> i = j)
       /\ (forall i, sf i <> cf)
       /\ (forall p, p <> cf -> (forall i, i < k -> p <> sf (S i)) ->
             files w' !! p = files w !! p).
Proof.
  intros Hrun.
  destruct (extract_cases unicode_alnum read_text open_w_error print_error
              temp_dir safe_name file_path w)
    as [(content & Hr & _ & _ & _ & E)|(e & w1 & E & _)];
    rewrite E in Hrun; [|discriminate].
  injection Hrun as <-. exists content. split; [exact Hr|]. simpl.
  split; [apply lookup_insert_eq|].
  split.
  { intros i Hi. rewrite lookup_insert_ne by (apply not_eq_sym, snippet_file_not_count).
    now apply (write_all_lookup temp_dir safe_name _ 0). }
  split; [apply snippet_file_inj|].
  split; [apply snippet_file_not_count|].
  intros p Hp Hps. rewrite lookup_insert_ne by now apply not_eq_sym.
  now apply write_all_other.
Qed.

(** C3: a document none of whose lines opens a rust block gives no snippet
    file, whatever the environment does; when the document is read, the
    count file opens and the summary line is printed, the exit status is 0,
    the count file holds [0] and nothing else is written. *)
Theorem no_fence_no_snippets (prog content : str) (w : world) :
  read_text file_path = inl content ->
  Forall (fun line => is_open_fence line = false) (str_split_nl content) ->
  output_units unicode_alnum (snippets (scan_lines (str_split_nl content))) = []
  /\ (forall i, files (snd (main unicode_alnum read_text open_w_error print_error
                                [prog; file_path; temp_dir; safe_name] w)) !! sf i
                = files w !! sf i)
  /\ (open_w_error cf = None ->
      print_error (py "Extracted 0 snippets from " ++ file_path) = None ->
      main unicode_alnum read_text open_w_error print_error
           [prog; file_path; temp_dir; safe_name] w
      = (0%Z, World (<[cf := py "0"]> (files w))
                    (stdout w ++ [py "Extracted 0 snippets from " ++ file_path])
                    (stderr w))).
Proof.
  intros Hr Hl.
  assert (Hsn : snippets (scan_lines (str_split_nl content)) = []).
  { unfold scan_lines. now rewrite scan_outside by auto. }
  split; [now rewrite Hsn|]. split.
  - intros i. unfold main.
    destruct (extract_cases unicode_alnum read_text open_w_error print_error
                temp_dir safe_name file_path w)
      as [(c & Hr' & _ & _ & _ & E)|(e & w1 & E & _ & _ & Hcause)]; rewrite E.
    + rewrite Hr in Hr'. injection Hr' as <-. rewrite Hsn. simpl.
      apply lookup_insert_ne, not_eq_sym, snippet_file_not_count.
    + simpl. revert E.
      unfold extract_rust_snippets, try_except, bind, open_read, open_write,
        print, eprint, ret.
      rewrite Hr, Hsn. simpl.
      destruct (open_w_error cf); simpl; [now intros [= <-]|].
      destruct (print_error _); simpl; intros [= <-]; simpl.
      apply lookup_insert_ne, not_eq_sym, snippet_file_not_count.
  - intros Hc Hp. unfold main.
    rewrite (extract_ok unicode_alnum read_text open_w_error print_error
               temp_dir safe_name file_path content w Hr); rewrite ?Hsn.
    + reflexivity.
    + simpl. lia.
    + exact Hc.
    + exact Hp.
Qed.

(** C2: a document with exactly one fenced rust block, well formed, whose
    content with the white space around it removed is [code], where [code]
    has 10 characters or more, is kept by the filter and has at most one
    derive-and-struct match, gives, when reading, writing and printing
    succeed, one snippet file holding [code] and a count file holding [1].
    The stripped content is described by what it is, not by the function
    that computes it: the joined lines of the block are [code] between two
    stretches of white space, and [code] neither begins nor ends with white
    space. *)
Theorem one_block_one_file (content : str) (before body after : list str)
    (open close pad1 code pad2 : str) (w : world) :
  read_text file_path = inl content ->
  str_split_nl content = before ++ [open] ++ body ++ [close] ++ after ->
  Forall (fun line => is_open_fence line = false) before ->
  is_open_fence open = true ->
  Forall (fun line => is_open_fence line = false /\ is_close_fence line = false) body ->
  is_close_fence close = true ->
  Forall (fun line => is_open_fence line = false) after ->
  str_join_nl body = pad1 ++ code ++ pad2 ->
  Forall (fun c => isspace c = true) pad1 ->
  Forall (fun c => isspace c = true) pad2 ->
  (forall c, head code = Some c -> isspace c = false) ->
  (forall c, last code = Some c -> isspace c = false) ->
  10 <= length code ->
  is_placeholder_snippet code = false ->
  length (re_finditer MULTILINE_DOTALL (struct_pattern unicode_alnum) code) <= 1 ->
  open_w_error (sf 1) = None ->
  open_w_error cf = None ->
  print_error (py "Extracted 1 snippets from " ++ file_path) = None ->
  run w
  = (inl 0%Z,
     World (<[cf := py "1"]> (<[sf 1 := code]> (files w)))
           (stdout w ++ [py "Extracted 1 snippets from " ++ file_path])
           (stderr w)).
Proof.
  intros Hr Hsplit Hbefore Hopen Hbody Hclose Hafter Hjoin Hpad1 Hpad2 Hhead Hlast
    Hlen Hkeep Hone Hw1 Hwc Hp.
  assert (Hcode : str_strip (str_join_nl body) = code).
  { rewrite Hjoin. now apply str_strip_exact. }
  assert (Hsn : snippets (scan_lines (str_split_nl content)) = [code]).
  { rewrite Hsplit. unfold scan_lines. rewrite fold_left_app.
    rewrite (scan_outside before) by auto. simpl.
    rewrite (scan_line_open _ _ Hopen), fold_left_app.
    rewrite (scan_body body) by auto. simpl.
    rewrite scan_line_close by auto. simpl.
    rewrite (scan_outside after) by auto. simpl.
    unfold block_snippet. destruct body as [|l body].
    - simpl in Hcode. subst code. simpl in Hlen. lia.
    - rewrite Hcode, Hkeep.
      destruct code; [simpl in Hlen; lia|]. reflexivity. }
  assert (Hus : output_units unicode_alnum [code] = [code]).
  { unfold output_units, split_units. simpl.
    destruct (Nat.ltb_spec 1 (length (re_finditer MULTILINE_DOTALL
               (struct_pattern unicode_alnum) code))); [lia|reflexivity]. }
  rewrite (extract_ok unicode_alnum read_text open_w_error print_error
             temp_dir safe_name file_path content w Hr); rewrite ?Hsn, ?Hus.
  - reflexivity.
  - intros [|j] Hj; [exact Hw1|simpl in Hj; lia].
  - exact Hwc.
  - exact Hp.
Qed.

(** C8: a document that ends inside a block opened and never closed is
    processed like the document cut before the opening fence of that
    block: the dangling lines give no snippet, hence no file and no
    increment of the count, and the run ends with a status as any other. *)
Theorem unterminated_block_is_dropped (content : str) (before tail : list str)
    (open : str) (w : world) :
  read_text file_path = inl content ->
  str_split_nl content = before ++ open :: tail ->
  is_open_fence open = true ->
  Forall (fun line => is_close_fence line = false) tail ->
  snippets (scan_lines (str_split_nl content)) = snippets (scan_lines before)
  /\ run w
     = extract_rust_snippets unicode_alnum (reading (str_join_nl before))
         open_w_error print_error file_path temp_dir safe_name w
  /\ exists status w', run w = (inl status, w') /\ (status = 0 \/ status = 1)%Z.
Proof.
  intros Hr Hsplit Hopen Htail.
  assert (Hsn : snippets (scan_lines (str_split_nl content))
                = snippets (scan_lines before)).
  { rewrite Hsplit. unfold scan_lines. rewrite fold_left_app. simpl.
    rewrite scan_unclosed by exact Htail. now rewrite scan_line_open. }
  split; [exact Hsn|]. split.
  - apply (extract_same_snippets unicode_alnum read_text open_w_error print_error
             temp_dir safe_name (reading (str_join_nl before)) file_path
             content (str_join_nl before) w Hr eq_refl).
    rewrite Hsn. destruct before as [|l before]; [reflexivity|].
    rewrite str_split_join; [reflexivity|discriminate|].
    pose proof (str_split_nl_no_nl content) as Hno. rewrite Hsplit in Hno.
    now apply Forall_app in Hno as [Hno _].
  - destruct (extract_cases unicode_alnum read_text open_w_error print_error
                temp_dir safe_name file_path w)
      as [(c & _ & _ & _ & _ & E)|(e & w1 & E & _)]; eauto.
Qed.



End Runs.

(** ** [re.finditer] *)

Section FinditerFacts.

Variable fl : flags.
Variable p : list item.

(** The matches come in the order of the text and do not overlap. *)
Lemma finditer_ordered aft : forall bef skip lo hi,
  lo <= length bef + skip ->
  length bef + length aft <= hi ->
  ordered lo hi (finditer_from fl p bef aft skip).
Proof.
  induction aft as [|x t IH]; intros bef skip lo hi Hlo Hhi.
  - destruct skip; simpl; [|exact I].
    destruct (match_here fl p (bef, [])) as [[b' a']|]; simpl; [|exact I].
    repeat split; lia.
  - destruct skip as [|k]; simpl.
    + destruct (match_here fl p (bef, x :: t)) as [[b' a']|].
      * simpl in *. repeat split; try lia.
        apply IH; simpl; lia.
      * apply IH; simpl in *; lia.
    + apply IH; simpl in *; lia.
Qed.

(** Every match reported is what the matcher finds at some position of
    the subject. *)
Lemma finditer_found aft : forall bef skip m,
  In m (finditer_from fl p bef aft skip) ->
  exists b a b' a',
    rev bef ++ aft = rev b ++ a
    /\ match_here fl p (b, a) = Some (b', a')
    /\ m = Match (length b) (length b + (length a - length a'))
                 (take (length a - length a') a).
Proof.
  induction aft as [|x t IH]; intros bef skip m Hin.
  - destruct skip; simpl in Hin; [|contradiction].
    destruct (match_here fl p (bef, [])) as [[b' a']|] eqn:Hm; [|contradiction].
    destruct Hin as [<-|[]]. exists bef, [], b', a'. auto.
  - assert (Hrec : forall k, In m (finditer_from fl p (x :: bef) t k) ->
              exists b a b' a',
                rev bef ++ x :: t = rev b ++ a
                /\ match_here fl p (b, a) = Some (b', a')
                /\ m = Match (length b) (length b + (length a - length a'))
                             (take (length a - length a') a)).
    { intros k Hk. apply IH in Hk as (b & a & b' & a' & E & Hm & ->).
      exists b, a, b', a'. split; [|auto].
      rewrite <- E. simpl. now rewrite <- app_assoc. }
    destruct skip as [|k]; simpl in Hin; [|eauto].
    destruct (match_here fl p (bef, x :: t)) as [[b' a']|] eqn:Hm; [|eauto].
    destruct Hin as [<-|Hin]; [|eauto].
    exists bef, (x :: t), b', a'. auto.
Qed.


Lemma ordered_In ms : forall lo hi m,
  ordered lo hi ms -> In m ms ->
  lo <= m_start m /\ m_start m <= m_end m /\ m_end m <= hi.
Proof.
  induction ms as [|m0 ms IH]; intros lo hi m Ho Hin; [contradiction|].
  destruct Ho as (H1 & H2 & H3 & Ho). destruct Hin as [<-|Hin]; [auto|].
  destruct (IH _ _ _ Ho Hin) as (? & ? & ?). lia.
Qed.

Lemma ordered_lookup ms : forall lo hi i j m1 m2,
  ordered lo hi ms -> i < j -> ms !! i = Some m1 -> ms !! j = Some m2 ->
  m_end m1 <= m_start m2.
Proof.
  induction ms as [|m0 ms IH]; intros lo hi i j m1 m2 Ho Hij H1 H2;
    [discriminate|].
  destruct Ho as (_ & _ & _ & Ho).
  destruct j as [|j]; [lia|]. simpl in H2.
  destruct i as [|i].
  - simpl in H1. injection H1 as <-.
    apply list_elem_of_lookup_2, list_elem_of_In in H2.
    now destruct (ordered_In _ _ _ _ Ho H2).
  - simpl in H1. apply (IH _ _ i j m1 m2 Ho); [lia|assumption..].
Qed.

End FinditerFacts.

Lemma take_rev_app {A} (b x : list A) : take (length b) (rev b ++ x) = rev b.
Proof. rewrite <- (length_rev b). apply take_app_length. Qed.

Lemma drop_rev_app {A} (b x : list A) : drop (length b) (rev b ++ x) = x.
Proof. rewrite <- (length_rev b). apply drop_app_length. Qed.

Lemma match_one_lit fl c b t r :
  IGNORECASE fl = false ->
  match_here fl [One (Lit c)] (b, t) = Some r ->
  exists t', t = c :: t' /\ r = (c :: b, t').
Proof.
  intros Hi. cbn [match_here fst snd]. destruct t as [|y t']; [discriminate|].
  unfold atom_ok. rewrite Hi. destruct (N.eqb_spec y c) as [->|]; [|discriminate].
  intros [= <-]. eauto.
Qed.

Lemma match_one_lit_here fl c b t :
  IGNORECASE fl = false ->
  match_here fl [One (Lit c)] (b, c :: t) = Some (c :: b, t).
Proof.
  intros Hi. cbn [match_here fst snd]. unfold atom_ok.
  now rewrite Hi, N.eqb_refl.
Qed.

(** ** The struct splitter *)

Section StructFacts.

Variable unicode_alnum : char -> bool.

Local Abbreviation struct_matches snippet :=
  (re_finditer MULTILINE_DOTALL (struct_pattern unicode_alnum) snippet).

(** The body of a match is lazy: it ends at the first closing brace after
    the opening one. *)
Lemma struct_body_lazy b1 a1 b' a' :
  match_here MULTILINE_DOTALL struct_body (b1, a1) = Some (b', a') ->
  exists body, a1 = body ++ py "}" ++ a' /\ ~ In 125%N body.
Proof.
  intros H.
  change (star_lazy (atom_ok MULTILINE_DOTALL Dot)
            (match_here MULTILINE_DOTALL [One (Lit 125%N)]) b1 a1
          = Some (b', a')) in H.
  apply star_lazy_sound in H as (body & t & -> & _ & Hk & Hmin).
  exists body.
  apply match_one_lit in Hk as (t' & -> & Hr); [|reflexivity].
  injection Hr as _ ->. split; [reflexivity|].
  intros Hin. apply in_split in Hin as (m1 & m2 & ->).
  specialize (Hmin m1 125%N m2 eq_refl).
  rewrite match_one_lit_here in Hmin by reflexivity. discriminate.
Qed.

(** What a reported match looks like. *)
Lemma struct_match_shape snippet m :
  In m (struct_matches snippet) ->
  m_start m < m_end m
  /\ group0 m = take (m_end m - m_start m) (drop (m_start m) snippet)
  /\ length (group0 m) = m_end m - m_start m
  /\ exists head body,
       group0 m = head ++ body ++ py "}"
       /\ ~ In 125%N body
       /\ Matches MULTILINE_DOTALL (struct_head unicode_alnum)
            (rev (take (m_start m) snippet), drop (m_start m) snippet)
            (rev head ++ rev (take (m_start m) snippet),
             body ++ py "}" ++ drop (m_end m) snippet).
Proof.
  intros Hin. apply finditer_found in Hin as (b & a & b' & a' & E & Hm & ->).
  cbn [rev app] in E. subst snippet.
  change (struct_pattern unicode_alnum)
    with (struct_head unicode_alnum ++ struct_body) in Hm.
  apply match_here_app in Hm as ([b1 a1] & Hhead & Hbody).
  apply struct_body_lazy in Hbody as (body & -> & Hno).
  destruct (Matches_span _ _ _ _ Hhead) as (head & Ea & Eb).
  cbn [fst snd] in Ea, Eb.
  subst a b1. cbn [m_start m_end group0].
  assert (Hn : length (head ++ body ++ py "}" ++ a') - length a'
               = length (head ++ body ++ py "}")).
  { rewrite !length_app. lia. }
  rewrite Hn. clear Hn.
  set (g := head ++ body ++ py "}") in *.
  replace (head ++ body ++ py "}" ++ a') with (g ++ a') in *
    by (unfold g; now rewrite <- !app_assoc).
  replace (length b + length g - length b) with (length g) by lia.
  rewrite drop_rev_app, take_rev_app, rev_involutive, take_app_length.
  split; [unfold g; rewrite !length_app; simpl; lia|].
  split; [reflexivity|]. split; [reflexivity|].
  exists head, body. split; [reflexivity|]. split; [exact Hno|].
  replace (drop (length b + length g) (rev b ++ g ++ a')) with a'.
  - exact Hhead.
  - rewrite <- drop_drop, drop_rev_app. now rewrite drop_app_length.
Qed.

Lemma struct_matches_ordered snippet :
  ordered 0 (length snippet) (struct_matches snippet).
Proof. apply finditer_ordered; simpl; lia. Qed.

(** Two or more matches: each is shorter than the snippet. *)
Lemma struct_match_proper snippet j m :
  2 <= length (struct_matches snippet) ->
  struct_matches snippet !! j = Some m ->
  group0 m <> snippet.
Proof.
  intros Hlen Hj E.
  pose proof (struct_matches_ordered snippet) as Ho.
  assert (Hin : In m (struct_matches snippet))
    by (apply list_elem_of_In; eapply list_elem_of_lookup_2; exact Hj).
  destruct (struct_match_shape _ _ Hin) as (Hpos & _ & Hl & _).
  destruct (ordered_In _ _ _ _ Ho Hin) as (_ & _ & Hhi).
  rewrite E in Hl.
  destruct j as [|j].
  - destruct (lookup_lt_is_Some_2 (struct_matches snippet) 1) as [m' H']; [lia|].
    pose proof (ordered_lookup _ _ _ 0 1 m m' Ho ltac:(lia) Hj H') as Hle.
    assert (Hin' : In m' (struct_matches snippet))
      by (apply list_elem_of_In; eapply list_elem_of_lookup_2; exact H').
    destruct (struct_match_shape _ _ Hin') as (Hpos' & _).
    destruct (ordered_In _ _ _ _ Ho Hin') as (_ & _ & Hhi'). lia.
  - destruct (lookup_lt_is_Some_2 (struct_matches snippet) 0) as [m' H']; [lia|].
    pose proof (ordered_lookup _ _ _ 0 (S j) m' m Ho ltac:(lia) H' Hj) as Hle.
    assert (Hin' : In m' (struct_matches snippet))
      by (apply list_elem_of_In; eapply list_elem_of_lookup_2; exact H').
    destruct (struct_match_shape _ _ Hin') as (Hpos' & _). lia.
Qed.

End StructFacts.

Lemma lookup_map {A B} (f : A -> B) (l : list A) : forall i,
  map f l !! i = f <$> l !! i.
Proof. induction l as [|x l IH]; intros [|i]; simpl; auto. Qed.




Section Splitting.

Variable unicode_alnum : char -> bool.
Variable open_w_error : str -> option str.
Variables temp_dir safe_name : str.

Local Abbreviation sf := (snippet_file temp_dir safe_name).

(** C6: for a kept snippet with two or more matches of the split pattern,
    when the files open, the loop writes one file per match, under
    consecutive numbers in the order of the matches in the snippet (each
    match ends before the next begins), each file holding exactly the
    matched text; no file is written besides these, and none of them holds
    the snippet as a whole. *)
Theorem bundled_structs_written_separately (snippet : str) (n : nat) (w : world) :
  let ms := re_finditer MULTILINE_DOTALL (struct_pattern unicode_alnum) snippet in
  2 <= length ms ->
  (forall j, j < length ms -> open_w_error (sf (S (n + j))) = None) ->
  exists w',
    write_snippets unicode_alnum open_w_error temp_dir safe_name [snippet] n w
    = (inl (n + length ms), w')
    /\ (forall j m, ms !! j = Some m ->
          files w' !! sf (S (n + j)) = Some (group0 m)
          /\ group0 m = take (m_end m - m_start m) (drop (m_start m) snippet)
          /\ group0 m <> snippet)
    /\ (forall i j m1 m2,
          i < j -> ms !! i = Some m1 -> ms !! j = Some m2 -> m_end m1 <= m_start m2)
    /\ (forall p, (forall j, j < length ms -> p <> sf (S (n + j))) ->
          files w' !! p = files w !! p).
Proof.
  intros ms Hlen Hok.
  assert (Hus : output_units unicode_alnum [snippet] = map group0 ms).
  { unfold output_units, split_units. simpl. fold ms.
    destruct (Nat.ltb_spec 1 (length ms)); [apply app_nil_r|lia]. }
  eexists. split.
  { rewrite write_snippets_flat, Hus.
    destruct (write_units_cases open_w_error temp_dir safe_name
                (map group0 ms) n w) as [[_ E]|(j & e & Hj & He & _)].
    - rewrite E, length_map. reflexivity.
    - rewrite length_map in Hj. rewrite (Hok j Hj) in He. discriminate. }
  simpl. split; [|split].
  - intros j m Hj.
    assert (Hin : In m ms)
      by (apply list_elem_of_In; eapply list_elem_of_lookup_2; exact Hj).
    destruct (struct_match_shape unicode_alnum _ _ Hin) as (_ & Hg & _).
    split; [|split; [exact Hg|]].
    + rewrite write_all_lookup, lookup_map, Hj; [reflexivity|].
      rewrite length_map. now apply lookup_lt_Some in Hj.
    + now apply (struct_match_proper unicode_alnum snippet j).
  - intros i j m1 m2 Hij H1 H2.
    exact (ordered_lookup _ _ _ _ _ _ _
             (struct_matches_ordered unicode_alnum snippet) Hij H1 H2).
  - intros p Hp. apply write_all_other. intros j Hj.
    rewrite length_map in Hj. now apply Hp.
Qed.

End Splitting.

(** ** The theorems at work on sample documents *)

Lemma count_file_matches_witness :
  files (snd (extract_rust_snippets ascii_only (reading doc_one_block) all_writable
                all_printable (py "doc.md") (py "/tmp") (py "doc") fresh_world))
    !! count_file (py "/tmp") (py "doc") = Some (py "1").
Proof.
  destruct (count_file_matches_snippet_files ascii_only (reading doc_one_block)
              all_writable all_printable (py "doc.md") (py "/tmp") (py "doc")
              fresh_world
              (snd (extract_rust_snippets ascii_only (reading doc_one_block)
                      all_writable all_printable (py "doc.md") (py "/tmp") (py "doc")
                      fresh_world)))
    as (content & Hr & Hc & _).
  - vm_compute. reflexivity.
  - unfold reading in Hr. injection Hr as <-. rewrite Hc. vm_compute. reflexivity.
Defined.

Lemma one_block_one_file_witness :
  extract_rust_snippets ascii_only (reading doc_padded_block) all_writable
    all_printable (py "doc.md") (py "/tmp") (py "doc") fresh_world
  = (inl 0%Z,
     World (<[count_file (py "/tmp") (py "doc") := py "1"]>
              (<[snippet_file (py "/tmp") (py "doc") 1
                 := py "fn add(a: i32, b: i32) -> i32 { a + b }"]> empty))
           [py "Extracted 1 snippets from doc.md"] []).
Proof.
  apply (one_block_one_file ascii_only (reading doc_padded_block) all_writable
           all_printable (py "doc.md") (py "/tmp") (py "doc") doc_padded_block
           [py "# Adding"]
           [py ""; py "    fn add(a: i32, b: i32) -> i32 { a + b }  "; [9%N]]
           [py "Done."] (py "```rust") (py "```")
           (nl :: py "    ") (py "fn add(a: i32, b: i32) -> i32 { a + b }")
           (py "  " ++ [nl; 9%N]) fresh_world).
  - reflexivity.
  - vm_compute. reflexivity.
  - repeat constructor.
  - reflexivity.
  - repeat constructor.
  - reflexivity.
  - repeat constructor.
  - vm_compute. reflexivity.
  - repeat constructor.
  - repeat constructor.
  - intros c [= <-]. reflexivity.
  - intros c [= <-]. reflexivity.
  - vm_compute. lia.
  - vm_compute. reflexivity.
  - vm_compute. lia.
  - reflexivity.
  - reflexivity.
  - reflexivity.
Defined.

Lemma no_fence_no_snippets_witness :
  main ascii_only (reading doc_no_fence) all_writable all_printable argv_sample
    fresh_world
  = (0%Z, World (<[count_file (py "/tmp") (py "doc") := py "0"]> empty)
                [py "Extracted 0 snippets from doc.md"] []).
Proof.
  apply (no_fence_no_snippets ascii_only (reading doc_no_fence) all_writable
           all_printable (py "doc.md") (py "/tmp") (py "doc")
           (py "extract_rust_snippets.py") doc_no_fence fresh_world).
  - reflexivity.
  - vm_compute. repeat constructor.
  - reflexivity.
  - reflexivity.
Defined.

Lemma unterminated_block_witness :
  snippets (scan_lines (str_split_nl doc_unterminated))
  = [py "fn add(a: i32, b: i32) -> i32 { a + b }"].
Proof.
  destruct (unterminated_block_is_dropped ascii_only (reading doc_unterminated)
              all_writable all_printable (py "doc.md") (py "/tmp") (py "doc") doc_unterminated
              [py "```rust"; py "fn add(a: i32, b: i32) -> i32 { a + b }"; py "```"]
              [py "fn dangling() {}"] (py "```rust") fresh_world)
    as (H & _).
  - reflexivity.
  - vm_compute. reflexivity.
  - reflexivity.
  - repeat constructor.
  - rewrite H. vm_compute. reflexivity.
Defined.

Lemma bundled_structs_witness :
  exists w',
    write_snippets ascii_only all_writable (py "/tmp") (py "doc")
      [two_structs] 0 fresh_world = (inl 2, w')
    /\ files w' !! snippet_file (py "/tmp") (py "doc") 2
       = Some (str_join_nl [py "#[derive(Clone)]"; py "struct B {"; py "  b: u8,"; py "}"]).
Proof.
  destruct (bundled_structs_written_separately ascii_only all_writable
              (py "/tmp") (py "doc") two_structs 0 fresh_world)
    as (w' & E & Hfiles & _).
  - vm_compute. lia.
  - reflexivity.
  - exists w'. split; [exact E|].
    destruct (Hfiles 1 (Match 36 74 (str_join_nl [py "#[derive(Clone)]";
                py "struct B {"; py "  b: u8,"; py "}"]))) as (Hf & _).
    + vm_compute. reflexivity.
    + exact Hf.
Defined.

(** ** Further properties of the scanner and of the filter *)

(** X4: white space around a snippet does not change the verdict of the
    placeholder filter. *)
Theorem placeholder_ignores_padding (pad1 code pad2 : str) :
  Forall (fun c => isspace c = true) pad1 ->
  Forall (fun c => isspace c = true) pad2 ->
  is_placeholder_snippet (pad1 ++ code ++ pad2) = is_placeholder_snippet code.
Proof.
  intros H1 H2. unfold is_placeholder_snippet.
  now rewrite str_strip_padding.
Qed.

Lemma placeholder_ignores_padding_witness :
  is_placeholder_snippet (py "  " ++ marker_on_second_line ++ [nl; 9%N])
  = is_placeholder_snippet marker_on_second_line.
Proof.
  apply placeholder_ignores_padding; repeat constructor.
Defined.

(** What the scanner lets through. *)
Lemma kept_snippet_facts code :
  str_strip code <> [] ->
  is_placeholder_snippet (str_strip code) = false ->
  str_strip (str_strip code) = str_strip code
  /\ 10 <= length (str_strip code)
  /\ is_placeholder_snippet (str_strip code) = false.
Proof.
  intros _ Hk. split; [apply str_strip_idem|]. split; [|exact Hk].
  destruct (Nat.lt_ge_cases (length (str_strip code)) 10) as [Hlt|]; [|assumption].
  exfalso.
  assert (is_placeholder_snippet (str_strip code) = true); [|congruence].
  apply is_placeholder_snippet_true. right. now rewrite str_strip_idem.
Qed.

Lemma scan_line_keeps (P : list N -> Prop) st line :
  (forall code, str_strip code <> [] ->
                is_placeholder_snippet (str_strip code) = false ->
                P (str_strip code)) ->
  Forall P (snippets st) -> Forall P (snippets (scan_line st line)).
Proof.
  intros HP Hst.
  destruct (is_open_fence line) eqn:Ho;
    [now rewrite scan_line_open|].
  destruct (in_rust_block st) eqn:Hb;
    [|now rewrite scan_line_outside].
  destruct (is_close_fence line) eqn:Hc;
    [|now rewrite scan_line_inside].
  rewrite scan_line_close by assumption. cbn [snippets].
  apply Forall_app. split; [exact Hst|].
  unfold block_snippet. destruct (current_snippet st) as [|l ls]; [constructor|].
  destruct (bool_decide_reflect
              (str_strip (str_join_nl (l :: ls)) = [])) as [|Hne];
    cbn [negb andb]; [constructor|].
  destruct (is_placeholder_snippet (str_strip (str_join_nl (l :: ls)))) eqn:Hk;
    cbn [negb]; [constructor|].
  constructor; [|constructor]. now apply HP.
Qed.

(** X1: every snippet the scanner emits is stripped text of 10 characters
    or more that the placeholder filter keeps. *)
Theorem emitted_snippets_are_kept (lines : list str) (snippet : str) :
  In snippet (snippets (scan_lines lines)) ->
  str_strip snippet = snippet
  /\ 10 <= length snippet
  /\ is_placeholder_snippet snippet = false.
Proof.
  unfold scan_lines.
  assert (H : forall st,
    Forall (fun s => str_strip s = s /\ 10 <= length s
                     /\ is_placeholder_snippet s = false) (snippets st) ->
    Forall (fun s => str_strip s = s /\ 10 <= length s
                     /\ is_placeholder_snippet s = false)
           (snippets (fold_left scan_line lines st))).
  { induction lines as [|l lines IH]; intros st Hst; [exact Hst|].
    simpl. apply IH. apply scan_line_keeps; [|exact Hst].
    intros code Hne Hk. now apply kept_snippet_facts. }
  intros Hin. specialize (H scan_init ltac:(constructor)).
  now apply (proj1 (List.Forall_forall _ _) H).
Qed.

Lemma emitted_snippets_witness :
  In (py "fn second() -> u8 { 2 }") (snippets (scan_lines doc_two_blocks_b))
  /\ 10 <= length (py "fn second() -> u8 { 2 }").
Proof.
  split; [left; reflexivity|].
  apply (emitted_snippets_are_kept doc_two_blocks_b (py "fn second() -> u8 { 2 }")).
  left. reflexivity.
Defined.

(** The snippets found so far only grow at the end. *)
Lemma scan_line_prefix s b c line :
  scan_line (ScanState s b c) line
  = ScanState (s ++ snippets (scan_line (ScanState [] b c) line))
              (in_rust_block (scan_line (ScanState [] b c) line))
              (current_snippet (scan_line (ScanState [] b c) line)).
Proof.
  unfold scan_line. simpl.
  destruct (is_open_fence line); simpl; [now rewrite app_nil_r|].
  destruct (is_close_fence line && b); simpl.
  - destruct c as [|l ls]; [now rewrite app_nil_r|].
    destruct (_ && _); simpl; [reflexivity|now rewrite app_nil_r].
  - destruct b; simpl; now rewrite app_nil_r.
Qed.

Lemma scan_prefix lines : forall s b c,
  fold_left scan_line lines (ScanState s b c)
  = ScanState (s ++ snippets (fold_left scan_line lines (ScanState [] b c)))
              (in_rust_block (fold_left scan_line lines (ScanState [] b c)))
              (current_snippet (fold_left scan_line lines (ScanState [] b c))).
Proof.
  induction lines as [|l lines IH]; intros s b c; simpl.
  - now rewrite app_nil_r.
  - rewrite scan_line_prefix.
    destruct (scan_line (ScanState [] b c) l) as [s' b' c']. cbn [snippets
      in_rust_block current_snippet].
    rewrite (IH (s ++ s')), (IH s'). cbn [snippets in_rust_block current_snippet].
    now rewrite app_assoc.
Qed.

(** Outside a block the accumulator is empty. *)
Lemma scan_outside_empty lines : forall st,
  (in_rust_block st = false -> current_snippet st = []) ->
  in_rust_block (fold_left scan_line lines st) = false ->
  current_snippet (fold_left scan_line lines st) = [].
Proof.
  induction lines as [|l lines IH]; intros st Hst; [exact Hst|].
  simpl. apply IH. unfold scan_line.
  destruct (is_open_fence l); simpl; [discriminate|].
  destruct (is_close_fence l && in_rust_block st); simpl; [reflexivity|].
  destruct (in_rust_block st) eqn:Hb; simpl; [discriminate|].
  intros _. now apply Hst.
Qed.

(** X2: where a first part of a document ends outside any block, the
    snippets of the document are those of the first part followed by those
    of the rest scanned on its own. *)
Theorem scan_lines_app (lines1 lines2 : list str) :
  in_rust_block (scan_lines lines1) = false ->
  snippets (scan_lines (lines1 ++ lines2))
  = snippets (scan_lines lines1) ++ snippets (scan_lines lines2).
Proof.
  intros Hout. unfold scan_lines in *. rewrite fold_left_app.
  pose proof (scan_outside_empty lines1 scan_init (fun _ => eq_refl) Hout) as Hc.
  destruct (fold_left scan_line lines1 scan_init) as [s b c].
  simpl in *. subst b c. now rewrite scan_prefix.
Qed.

Lemma scan_lines_app_witness :
  snippets (scan_lines (doc_two_blocks_a ++ doc_two_blocks_b))
  = [py "fn first() -> u8 { 1 }"; py "fn second() -> u8 { 2 }"].
Proof.
  rewrite (scan_lines_app doc_two_blocks_a doc_two_blocks_b); reflexivity.
Defined.

Lemma block_snippet_length body : length (block_snippet body) <= 1.
Proof.
  unfold block_snippet. destruct body; [simpl; lia|].
  destruct (_ && _); simpl; lia.
Qed.

Lemma scan_line_counts st line :
  length (snippets (scan_line st line))
    <= length (snippets st) + (if is_close_fence line then 1 else 0)
  /\ length (snippets (scan_line st line))
       + (if in_rust_block (scan_line st line) then 1 else 0)
     <= length (snippets st) + (if in_rust_block st then 1 else 0)
        + (if is_open_fence line then 1 else 0).
Proof.
  destruct (is_open_fence line) eqn:Ho.
  - rewrite scan_line_open by exact Ho. simpl.
    destruct (is_close_fence line), (in_rust_block st); lia.
  - destruct (is_close_fence line) eqn:Hc, (in_rust_block st) eqn:Hb.
    + rewrite scan_line_close by assumption. simpl. rewrite length_app.
      pose proof (block_snippet_length (current_snippet st)). lia.
    + rewrite scan_line_outside by assumption. rewrite Hb. lia.
    + rewrite scan_line_inside by assumption. simpl. lia.
    + rewrite scan_line_outside by assumption. rewrite Hb. lia.
Qed.

(** X3: there are never more snippets than opening fences, nor than
    closing fences. *)
Theorem snippets_bounded_by_fences (lines : list str) :
  length (snippets (scan_lines lines)) <= count_lines is_open_fence lines
  /\ length (snippets (scan_lines lines)) <= count_lines is_close_fence lines.
Proof.
  unfold scan_lines, count_lines.
  assert (H : forall st,
    length (snippets (fold_left scan_line lines st))
      <= length (snippets st) + length (List.filter is_close_fence lines)
    /\ length (snippets (fold_left scan_line lines st))
         + (if in_rust_block (fold_left scan_line lines st) then 1 else 0)
       <= length (snippets st) + (if in_rust_block st then 1 else 0)
          + length (List.filter is_open_fence lines)).
  { induction lines as [|l lines IH]; intros st; simpl; [lia|].
    destruct (IH (scan_line st l)) as [H1 H2].
    destruct (scan_line_counts st l) as [H3 H4].
    destruct (is_close_fence l), (is_open_fence l); simpl; lia. }
  destruct (H scan_init) as [H1 H2]. simpl in *.
  destruct (in_rust_block (fold_left scan_line lines scan_init)); lia.
Qed.

(** ** Further properties of the writing loops and of whole runs *)

Section OutcomeFacts.

Variable unicode_alnum : char -> bool.
Variable read_text : str -> str + str.
Variable open_w_error : str -> option str.
Variable print_error : str -> option str.
Variables file_path temp_dir safe_name : str.

Local Abbreviation sf := (snippet_file temp_dir safe_name).
Local Abbreviation cf := (count_file temp_dir safe_name).
Local Abbreviation flat := (write_units open_w_error temp_dir safe_name).
Local Abbreviation run :=
  (extract_rust_snippets unicode_alnum read_text open_w_error print_error
     file_path temp_dir safe_name).
Local Abbreviation units content :=
  (output_units unicode_alnum (snippets (scan_lines (str_split_nl content)))).

(** The loop stops at the first file that does not open, and what it
    wrote before stays. *)
Lemma write_units_first_failure us : forall n w j e,
  j < length us ->
  (forall i, i < j -> open_w_error (sf (S (n + i))) = None) ->
  open_w_error (sf (S (n + j))) = Some e ->
  flat us n w
  = (inr e, World (write_all temp_dir safe_name (take j us) n (files w))
                  (stdout w) (stderr w)).
Proof.
  induction us as [|u us IH]; intros n w j e Hj Hok He; [simpl in Hj; lia|].
  simpl. unfold bind, open_write. destruct j as [|j].
  - rewrite Nat.add_0_r in He. rewrite He. now destruct w.
  - assert (H0 : open_w_error (sf (S n)) = None).
    { specialize (Hok 0 ltac:(lia)). now rewrite Nat.add_0_r in Hok. }
    rewrite H0.
    rewrite (IH (S n) _ j e); simpl in *; [reflexivity|lia| |].
    + intros i Hi. specialize (Hok (S i) ltac:(lia)).
      now rewrite Nat.add_succ_r in Hok.
    + now rewrite Nat.add_succ_r in He.
Qed.

Lemma write_all_present us : forall n fs p,
  is_Some (fs !! p) -> is_Some (write_all temp_dir safe_name us n fs !! p).
Proof.
  induction us as [|u us IH]; intros n fs p Hp; [exact Hp|].
  simpl. apply IH. apply lookup_insert_is_Some.
  destruct (decide (sf (S n) = p)); [now left|now right].
Qed.

Lemma write_all_insert_comm us : forall n fs q v,
  (forall j, j < length us -> q <> sf (S (n + j))) ->
  write_all temp_dir safe_name us n (<[q := v]> fs)
  = <[q := v]> (write_all temp_dir safe_name us n fs).
Proof.
  induction us as [|u us IH]; intros n fs q v Hq; [reflexivity|].
  simpl. rewrite insert_insert_ne.
  - apply IH. intros j Hj. specialize (Hq (S j)).
    rewrite Nat.add_succ_r in Hq. apply Hq. simpl. lia.
  - specialize (Hq 0). rewrite Nat.add_0_r in Hq.
    apply not_eq_sym, Hq. simpl. lia.
Qed.

(** Writing the same units under the same numbers again changes nothing. *)
Lemma write_all_twice us : forall n fs,
  write_all temp_dir safe_name us n (write_all temp_dir safe_name us n fs)
  = write_all temp_dir safe_name us n fs.
Proof.
  induction us as [|u us IH]; intros n fs; [reflexivity|].
  simpl. rewrite <- write_all_insert_comm.
  - rewrite IH. now rewrite insert_insert_eq.
  - intros j _ E%snippet_file_inj. lia.
Qed.

(** The files a run leaves, whatever its outcome: the first [j] units
    written for some [j], and the count file too when all went well. *)
Lemma extract_files_shape w :
  exists us j,
    files (snd (run w)) = write_all temp_dir safe_name (take j us) 0 (files w)
    \/ exists count,
         files (snd (run w))
         = <[cf := count]> (write_all temp_dir safe_name us 0 (files w)).
Proof.
  unfold extract_rust_snippets, try_except, bind, open_read, open_write,
    print, eprint, ret.
  destruct (read_text file_path) as [content|e].
  - rewrite write_snippets_flat.
    destruct (write_units_cases open_w_error temp_dir safe_name (units content) 0 w)
      as [[_ E]|(j & e & _ & _ & E)]; rewrite E; simpl.
    + destruct (open_w_error cf); simpl.
      * exists (units content), (length (units content)). left.
        now rewrite firstn_all.
      * exists (units content), 0. right.
        destruct (print_error _); simpl; eauto.
    + exists (units content), j. now left.
  - exists [], 0. now left.
Qed.

(** X8: whatever its outcome, a run changes no file other than its own
    snippet files and its count file, and removes no file: what was there
    before, such as the snippet files of an earlier run with more snippets,
    is still there. *)
Theorem run_touches_only_own_files (w : world) :
  (forall p, p <> cf -> (forall i, p <> sf i) ->
     files (snd (run w)) !! p = files w !! p)
  /\ (forall p, is_Some (files w !! p) -> is_Some (files (snd (run w)) !! p)).
Proof.
  destruct (extract_files_shape w) as (us & j & [E|[count E]]); rewrite E.
  - split.
    + intros p _ Hp. apply write_all_other. intros i _. apply Hp.
    + intros p Hp. now apply write_all_present.
  - split.
    + intros p Hc Hp. rewrite lookup_insert_ne by now apply not_eq_sym.
      apply write_all_other. intros i _. apply Hp.
    + intros p Hp. apply lookup_insert_is_Some.
      destruct (decide (cf = p)); [now left|right].
      split; [assumption|]. now apply write_all_present.
Qed.

(** X5: when a snippet file does not open, the run stops there with
    status 1 and a diagnostic on the error stream; the snippet files
    before it stay written, the later ones and the count file are not
    written, and nothing is printed on the standard output. *)
Theorem write_failure_keeps_partial_output (content e : str) (j : nat) (w : world) :
  read_text file_path = inl content ->
  j < length (units content) ->
  (forall i, i < j -> open_w_error (sf (S i)) = None) ->
  open_w_error (sf (S j)) = Some e ->
  exists fs',
    run w = (inl 1%Z,
             World fs' (stdout w)
                   (stderr w ++ [py "Error processing " ++ file_path ++ py ": " ++ e]))
    /\ (forall i, i < j -> fs' !! sf (S i) = units content !! i)
    /\ (forall i, j <= i -> fs' !! sf (S i) = files w !! sf (S i))
    /\ fs' !! cf = files w !! cf.
Proof.
  intros Hr Hj Hok He.
  exists (write_all temp_dir safe_name (take j (units content)) 0 (files w)).
  split; [|split; [|split]].
  - unfold extract_rust_snippets, try_except, bind, open_read, eprint, ret.
    rewrite Hr, write_snippets_flat.
    now rewrite (write_units_first_failure (units content) 0 w j e Hj Hok He).
  - intros i Hi.
    rewrite (write_all_lookup temp_dir safe_name (take j (units content)) 0 _ i).
    + apply lookup_take_lt. exact Hi.
    + rewrite length_take. lia.
  - intros i Hi. apply write_all_other. intros k Hk E%snippet_file_inj.
    rewrite length_take in Hk. simpl in E. lia.
  - apply write_all_other. intros k _ E.
    now apply (snippet_file_not_count temp_dir safe_name (S (0 + k))).
Qed.

(** X6: when every snippet file opens and the count file does not, all
    the snippet files are written, the count file is left as it was, the
    summary is not printed and the status is 1. *)
Theorem count_file_failure (content e : str) (w : world) :
  read_text file_path = inl content ->
  (forall i, i < length (units content) -> open_w_error (sf (S i)) = None) ->
  open_w_error cf = Some e ->
  exists fs',
    run w = (inl 1%Z,
             World fs' (stdout w)
                   (stderr w ++ [py "Error processing " ++ file_path ++ py ": " ++ e]))
    /\ (forall i, i < length (units content) -> fs' !! sf (S i) = units content !! i)
    /\ fs' !! cf = files w !! cf.
Proof.
  intros Hr Hok He.
  exists (write_all temp_dir safe_name (units content) 0 (files w)).
  split; [|split].
  - unfold extract_rust_snippets, try_except, bind, open_read, open_write,
      eprint, ret.
    rewrite Hr, write_snippets_flat.
    destruct (write_units_cases open_w_error temp_dir safe_name (units content) 0 w)
      as [[_ E]|(j & e' & Hj & He' & _)].
    + rewrite E. simpl. now rewrite He.
    + pose proof (Hok j Hj) as H0. simpl in He'. congruence.
  - intros i Hi. now apply (write_all_lookup temp_dir safe_name _ 0).
  - apply write_all_other. intros k _ E.
    now apply (snippet_file_not_count temp_dir safe_name (S (0 + k))).
Qed.

(** X7: when the document cannot be read or decoded, no file is written,
    not even the count file; the diagnostic names the document and carries
    the message of the exception, and the exit status is 1. *)
Theorem read_failure_writes_nothing (prog e : str) (w : world) :
  read_text file_path = inr e ->
  main unicode_alnum read_text open_w_error print_error
       [prog; file_path; temp_dir; safe_name] w
  = (1%Z, World (files w) (stdout w)
                (stderr w ++ [py "Error processing " ++ file_path ++ py ": " ++ e])).
Proof.
  intros Hr. unfold main, extract_rust_snippets, try_except, bind, open_read,
    eprint, ret.
  now rewrite Hr.
Qed.

(** X16: when the document is read and every file opens but the summary
    line cannot be printed, the run returns 1 after having written
    everything: the snippet files and the count file are those of a
    successful run, the standard output is left as it was, and the
    diagnostic carries the message of the failed print. *)
Theorem print_failure_after_writing (content e : str) (w : world) :
  read_text file_path = inl content ->
  (forall i, i < length (units content) -> open_w_error (sf (S i)) = None) ->
  open_w_error cf = None ->
  print_error (py "Extracted " ++ str_of_int (length (units content))
                 ++ py " snippets from " ++ file_path) = Some e ->
  exists fs',
    run w = (inl 1%Z,
             World fs' (stdout w)
                   (stderr w ++ [py "Error processing " ++ file_path ++ py ": " ++ e]))
    /\ (forall i, i < length (units content) -> fs' !! sf (S i) = units content !! i)
    /\ fs' !! cf = Some (str_of_int (length (units content))).
Proof.
  intros Hr Hok Hc Hp.
  exists (<[cf := str_of_int (length (units content))]>
            (write_all temp_dir safe_name (units content) 0 (files w))).
  split; [|split].
  - destruct (extract_cases unicode_alnum read_text open_w_error print_error
                temp_dir safe_name file_path w)
      as [(content' & Hr' & _ & _ & Hp' & _)
         |(e' & w' & E & Hout & Herr & [Hr'|(content' & Hr' & Hcause)])];
      try congruence;
      rewrite Hr in Hr'; injection Hr' as <-.
    destruct Hcause as [(j & Hj & He)|[He|(_ & _ & Hp' & Hfs)]].
    + rewrite (Hok j Hj) in He. discriminate.
    + congruence.
    + rewrite Hp in Hp'. injection Hp' as <-.
      rewrite E. destruct w' as [fs' out' err']. simpl in Hout, Herr, Hfs.
      now subst.
  - intros i Hi.
    rewrite lookup_insert_ne by (apply not_eq_sym, snippet_file_not_count).
    now apply (write_all_lookup temp_dir safe_name _ 0).
  - apply lookup_insert_eq.
Qed.

(** X9: a second run after a successful one, on the same document,
    succeeds too and leaves every file as the first run left it. *)
Theorem rerun_changes_nothing (w w1 : world) :
  run w = (inl 0%Z, w1) ->
  exists w2, run w1 = (inl 0%Z, w2) /\ files w2 = files w1.
Proof.
  intros Hrun.
  destruct (extract_cases unicode_alnum read_text open_w_error print_error temp_dir safe_name
              file_path w)
    as [(content & Hr & Hok & Hc & Hp & E)|(e & w' & E & _)];
    rewrite E in Hrun; [|discriminate].
  injection Hrun as <-.
  eexists. split.
  - apply (extract_ok unicode_alnum read_text open_w_error print_error temp_dir safe_name
             file_path content _ Hr Hok Hc Hp).
  - simpl. rewrite write_all_insert_comm.
    + now rewrite write_all_twice, insert_insert_eq.
    + intros j _ E'. symmetry in E'.
      now apply (snippet_file_not_count temp_dir safe_name (S (0 + j))).
Qed.

End OutcomeFacts.

Lemma write_failure_witness :
  exists fs',
    extract_rust_snippets ascii_only (reading doc_two_structs) second_file_locked
      all_printable (py "doc.md") (py "/tmp") (py "doc") fresh_world
    = (inl 1%Z,
       World fs' [] [py "Error processing doc.md: Permission denied"])
    /\ fs' !! snippet_file (py "/tmp") (py "doc") 1
       = Some (str_join_nl [py "#[derive(Debug)]"; py "struct A { a: u8 }"])
    /\ fs' !! count_file (py "/tmp") (py "doc") = None.
Proof.
  destruct (write_failure_keeps_partial_output ascii_only (reading doc_two_structs)
              second_file_locked all_printable (py "doc.md") (py "/tmp") (py "doc")
              doc_two_structs (py "Permission denied") 1 fresh_world)
    as (fs' & E & H1 & _ & Hc).
  - reflexivity.
  - vm_compute. lia.
  - intros [|i] Hi; [vm_compute; reflexivity|lia].
  - vm_compute. reflexivity.
  - exists fs'. split; [exact E|]. split.
    + rewrite (H1 0) by lia. vm_compute. reflexivity.
    + rewrite Hc. reflexivity.
Defined.

Lemma count_file_failure_witness :
  exists fs',
    extract_rust_snippets ascii_only (reading doc_one_block) count_file_locked
      all_printable (py "doc.md") (py "/tmp") (py "doc") fresh_world
    = (inl 1%Z,
       World fs' [] [py "Error processing doc.md: Permission denied"])
    /\ fs' !! snippet_file (py "/tmp") (py "doc") 1
       = Some (py "fn add(a: i32, b: i32) -> i32 { a + b }").
Proof.
  destruct (count_file_failure ascii_only (reading doc_one_block)
              count_file_locked all_printable (py "doc.md") (py "/tmp") (py "doc")
              doc_one_block (py "Permission denied") fresh_world)
    as (fs' & E & H1 & _).
  - reflexivity.
  - intros [|i] Hi; [vm_compute; reflexivity|].
    vm_compute in Hi. lia.
  - vm_compute. reflexivity.
  - exists fs'. split; [exact E|].
    rewrite (H1 0) by (vm_compute; lia). vm_compute. reflexivity.
Defined.

Lemma read_failure_witness :
  main ascii_only unreadable all_writable all_printable argv_sample fresh_world
  = (1%Z, World empty []
            [py "Error processing doc.md: No such file or directory"]).
Proof.
  apply (read_failure_writes_nothing ascii_only unreadable all_writable
           all_printable (py "doc.md") (py "/tmp") (py "doc") (py "extract_rust_snippets.py")
           (py "No such file or directory") fresh_world).
  reflexivity.
Defined.

Lemma rerun_witness :
  exists w2,
    extract_rust_snippets ascii_only (reading doc_one_block) all_writable
      all_printable (py "doc.md") (py "/tmp") (py "doc")
      (snd (extract_rust_snippets ascii_only (reading doc_one_block) all_writable
              all_printable (py "doc.md") (py "/tmp") (py "doc") fresh_world))
    = (inl 0%Z, w2)
    /\ length (stdout w2) = 2.
Proof.
  destruct (rerun_changes_nothing ascii_only (reading doc_one_block) all_writable
              all_printable (py "doc.md") (py "/tmp") (py "doc") fresh_world
              (snd (extract_rust_snippets ascii_only (reading doc_one_block)
                      all_writable all_printable (py "doc.md") (py "/tmp") (py "doc")
                      fresh_world)))
    as (w2 & E & _).
  - vm_compute. reflexivity.
  - exists w2. split; [exact E|].
    vm_compute in E. injection E as <-. reflexivity.
Defined.

Lemma print_failure_witness :
  exists fs',
    extract_rust_snippets ascii_only (reading doc_one_block) all_writable
      surrogates_refused surrogate_path (py "/tmp") (py "doc") fresh_world
    = (inl 1%Z,
       World fs' []
             [py "Error processing " ++ surrogate_path
                ++ py ": surrogates not allowed"])
    /\ fs' !! snippet_file (py "/tmp") (py "doc") 1
       = Some (py "fn add(a: i32, b: i32) -> i32 { a + b }")
    /\ fs' !! count_file (py "/tmp") (py "doc") = Some (py "1").
Proof.
  destruct (print_failure_after_writing ascii_only (reading doc_one_block)
              all_writable surrogates_refused surrogate_path (py "/tmp") (py "doc")
              doc_one_block (py "surrogates not allowed") fresh_world)
    as (fs' & E & H1 & Hc).
  - reflexivity.
  - intros i _. reflexivity.
  - reflexivity.
  - vm_compute. reflexivity.
  - exists fs'. split; [exact E|]. split.
    + rewrite (H1 0) by (vm_compute; lia). vm_compute. reflexivity.
    + rewrite Hc. vm_compute. reflexivity.
Defined.

(** ** Further properties of the splitter and of the file names *)

Section SplitFacts.

Variable unicode_alnum : char -> bool.

Local Abbreviation struct_matches snippet :=
  (re_finditer MULTILINE_DOTALL (struct_pattern unicode_alnum) snippet).

Lemma split_units_length snippet :
  1 <= length (split_units unicode_alnum snippet).
Proof.
  unfold split_units.
  destruct (Nat.ltb_spec 1 (length (struct_matches snippet))); simpl; [|lia].
  rewrite length_map. lia.
Qed.

(** X10: every kept snippet gives at least one output unit, so the count
    is never below the number of kept snippets; when no snippet has two or
    more matches of the split pattern the units are the snippets. *)
Theorem every_snippet_gives_a_unit (snippets : list str) :
  length snippets <= length (output_units unicode_alnum snippets)
  /\ (Forall (fun s => length (struct_matches s) <= 1) snippets ->
      output_units unicode_alnum snippets = snippets).
Proof.
  unfold output_units. induction snippets as [|s rest [IH1 IH2]]; simpl.
  - auto.
  - rewrite length_app. pose proof (split_units_length s) as Hone.
    split; [lia|].
    intros Hall. inversion Hall as [|? ? Hs Hrest]; subst.
    rewrite (IH2 Hrest). unfold split_units.
    destruct (Nat.ltb_spec 1 (length (struct_matches s))); [lia|reflexivity].
Qed.

Lemma ordered_total ms : forall lo hi,
  lo <= hi ->
  ordered lo hi ms ->
  (forall m, In m ms -> length (group0 m) = m_end m - m_start m) ->
  total_length (map group0 ms) + lo <= hi.
Proof.
  induction ms as [|m ms IH]; intros lo hi Hle Ho Hl; simpl.
  - exact Hle.
  - destruct Ho as (H1 & H2 & H3 & Ho).
    pose proof (Hl m (or_introl eq_refl)) as Hm.
    specialize (IH _ _ H3 Ho (fun m' Hin => Hl m' (or_intror Hin))). lia.
Qed.

(** X11: splitting never writes more text than the snippet holds: the
    units of a snippet have, together, at most as many characters as the
    snippet; what lies between the matches is written nowhere. *)
Theorem split_units_fit (snippet : str) :
  total_length (split_units unicode_alnum snippet) <= length snippet.
Proof.
  unfold split_units.
  destruct (1 <? length (struct_matches snippet)); [|simpl; lia].
  pose proof (ordered_total _ 0 (length snippet) ltac:(lia)
                (struct_matches_ordered unicode_alnum snippet)) as H.
  rewrite Nat.add_0_r in H. apply H.
  intros m Hin. now destruct (struct_match_shape unicode_alnum _ _ Hin) as (_ & _ & ? & _).
Qed.

End SplitFacts.

Lemma str_startswith_app p s : str_startswith p (p ++ s) = true.
Proof.
  induction p as [|c p IH]; simpl; [reflexivity|]. now rewrite N.eqb_refl.
Qed.

(** X12: when the identifying name does not begin with a slash, every
    snippet file and the count file lie under the output directory. *)
Theorem relative_name_stays_in_directory (temp_dir safe_name : str) (n : nat) :
  str_startswith (py "/") safe_name = false ->
  str_startswith temp_dir (snippet_file temp_dir safe_name n) = true
  /\ str_startswith temp_dir (count_file temp_dir safe_name) = true.
Proof.
  intros Hrel. unfold snippet_file, count_file, os_path_join.
  rewrite !startswith_slash in *.
  destruct safe_name as [|c name]; simpl app.
  - destruct (bool_decide (temp_dir = []) || _); split; apply str_startswith_app.
  - cbn [app]. rewrite Hrel.
    destruct (bool_decide (temp_dir = []) || _); split; apply str_startswith_app.
Qed.

Lemma relative_name_witness :
  str_startswith (py "/tmp") (snippet_file (py "/tmp") (py "doc") 3) = true
  /\ str_startswith (py "/tmp") (count_file (py "/tmp") (py "doc")) = true.
Proof. apply relative_name_stays_in_directory. reflexivity. Defined.

(** X13: when the identifying name begins with a slash, the output
    directory plays no part in the names of the snippet files, which are
    the name followed by the suffix, while the count file is still placed
    under the output directory. *)
Theorem absolute_name_leaves_directory (temp_dir safe_name : str) (n : nat) :
  str_startswith (py "/") safe_name = true ->
  snippet_file temp_dir safe_name n
  = safe_name ++ py "_snippet_" ++ str_of_int n ++ py ".rs"
  /\ str_startswith temp_dir (count_file temp_dir safe_name) = true.
Proof.
  intros Habs. unfold snippet_file, count_file, os_path_join.
  rewrite !startswith_slash in *.
  destruct safe_name as [|c name]; [discriminate|].
  cbn [app]. rewrite Habs. split; [reflexivity|].
  destruct (bool_decide (temp_dir = []) || _); apply str_startswith_app.
Qed.

Lemma absolute_name_witness :
  snippet_file (py "/tmp") (py "/etc/doc") 1 = py "/etc/doc_snippet_1.rs"
  /\ str_startswith (py "/tmp") (count_file (py "/tmp") (py "/etc/doc")) = true.
Proof.
  apply (absolute_name_leaves_directory (py "/tmp") (py "/etc/doc") 1).
  reflexivity.
Defined.

(** ** The shape of a split unit *)

Section MatchesInversion.

Variable fl : flags.

Lemma Matches_nil_inv c c' : Matches fl [] c c' -> c' = c.
Proof. now inversion 1. Qed.

Lemma Matches_bol_inv p c c' :
  Matches fl (Bol :: p) c c' -> at_bol fl c = true /\ Matches fl p c c'.
Proof. inversion 1; subst. auto. Qed.

Lemma Matches_one_inv a p b s c' :
  Matches fl (One a :: p) (b, s) c' ->
  exists x t, s = x :: t /\ atom_ok fl a x = true /\ Matches fl p (x :: b, t) c'.
Proof. inversion 1; subst. eauto. Qed.

Lemma Matches_star_inv a p b s c' :
  Matches fl (Star a :: p) (b, s) c' ->
  exists m t, s = m ++ t /\ Forall (fun x => atom_ok fl a x = true) m
              /\ Matches fl p (rev m ++ b, t) c'.
Proof. inversion 1; subst. eauto. Qed.

Lemma Matches_lazy_inv a p b s c' :
  Matches fl (LazyStar a :: p) (b, s) c' ->
  exists m t, s = m ++ t /\ Forall (fun x => atom_ok fl a x = true) m
              /\ Matches fl p (rev m ++ b, t) c'.
Proof. inversion 1; subst. eauto. Qed.

Lemma Matches_plus_inv a p b s c' :
  Matches fl (Plus a :: p) (b, s) c' ->
  exists m t, s = m ++ t /\ m <> [] /\ Forall (fun x => atom_ok fl a x = true) m
              /\ Matches fl p (rev m ++ b, t) c'.
Proof.
  inversion 1 as [| | |a' p' b' x m t c'' Hx Hm HM| | |]; subst.
  exists (x :: m), t. split; [reflexivity|]. split; [discriminate|].
  split; [now constructor|]. simpl. now rewrite <- app_assoc.
Qed.

(** A literal run of the pattern stands for itself in the subject. *)
Lemma Matches_lit_inv l : forall p b s c',
  IGNORECASE fl = false ->
  Matches fl (map (fun c => One (Lit c)) l ++ p) (b, s) c' ->
  exists t, s = l ++ t /\ Matches fl p (rev l ++ b, t) c'.
Proof.
  induction l as [|c l IH]; intros p b s c' Hi H; simpl in *.
  - eauto.
  - apply Matches_one_inv in H as (x & t & -> & Hx & H).
    unfold atom_ok in Hx. rewrite Hi in Hx. apply N.eqb_eq in Hx as ->.
    apply IH in H as (t' & -> & H); [|exact Hi].
    exists t'. split; [reflexivity|]. now rewrite <- app_assoc.
Qed.

End MatchesInversion.

(** An instance of the head of the split pattern, spelled out. *)
Lemma struct_head_inv unicode_alnum b s b1 s1 :
  Matches MULTILINE_DOTALL (struct_head unicode_alnum) (b, s) (b1, s1) ->
  at_bol MULTILINE_DOTALL (b, s) = true
  /\ exists attrs w1 w2 name w3,
       s = py "#[derive" ++ attrs ++ py "]" ++ w1 ++ [nl] ++ py "struct"
             ++ w2 ++ name ++ w3 ++ py "{" ++ s1
       /\ Forall (fun c => isspace c = true) w1
       /\ w2 <> [] /\ Forall (fun c => isspace c = true) w2
       /\ name <> [] /\ Forall (fun c => is_word unicode_alnum c = true) name
       /\ Forall (fun c => isspace c = true) w3.
Proof.
  unfold struct_head, lit. cbn [app]. intros H.
  apply Matches_bol_inv in H as [Hbol H]. split; [exact Hbol|].
  apply Matches_lit_inv in H as (t1 & -> & H); [|reflexivity].
  apply Matches_lazy_inv in H as (attrs & t2 & -> & _ & H).
  apply Matches_lit_inv in H as (t3 & -> & H); [|reflexivity].
  apply Matches_star_inv in H as (w1 & t4 & -> & Hw1 & H).
  apply (Matches_lit_inv _ [nl]) in H as (t5 & -> & H); [|reflexivity].
  apply Matches_lit_inv in H as (t6 & -> & H); [|reflexivity].
  apply Matches_plus_inv in H as (w2 & t7 & -> & Hne2 & Hw2 & H).
  apply Matches_plus_inv in H as (name & t8 & -> & Hnen & Hname & H).
  apply Matches_star_inv in H as (w3 & t9 & -> & Hw3 & H).
  rewrite <- (app_nil_r (map _ (py "{"))) in H.
  apply Matches_lit_inv in H as (t10 & -> & H); [|reflexivity].
  apply Matches_nil_inv in H. injection H as _ ->.
  exists attrs, w1, w2, name, w3. repeat split; assumption || reflexivity.
Qed.

(** X14: each unit written for a split snippet is, in this order: the
    text [#[derive], any characters, a closing bracket, optional white
    space, a newline, the word [struct], white space, a name made of word
    characters, optional white space, an opening brace, a body without any
    closing brace, and a closing brace; and it begins at the start of a
    line of the snippet. *)
Theorem split_unit_shape (unicode_alnum : char -> bool) (snippet : str)
    (m : match_obj) :
  In m (re_finditer MULTILINE_DOTALL (struct_pattern unicode_alnum) snippet) ->
  (exists attrs w1 w2 name w3 body,
     group0 m = py "#[derive" ++ attrs ++ py "]" ++ w1 ++ [nl] ++ py "struct"
                  ++ w2 ++ name ++ w3 ++ py "{" ++ body ++ py "}"
     /\ Forall (fun c => isspace c = true) w1
     /\ w2 <> [] /\ Forall (fun c => isspace c = true) w2
     /\ name <> [] /\ Forall (fun c => is_word unicode_alnum c = true) name
     /\ Forall (fun c => isspace c = true) w3
     /\ ~ In 125%N body)
  /\ (take (m_start m) snippet = []
      \/ exists before, take (m_start m) snippet = before ++ [nl]).
Proof.
  intros Hin.
  destruct (struct_match_shape unicode_alnum _ _ Hin)
    as (_ & _ & _ & head & body & Hg & Hno & Hhead).
  destruct (Matches_span _ _ _ _ Hhead) as (head' & Ea & Eb).
  cbn [fst snd] in Ea, Eb. apply app_inv_tail in Eb.
  apply (f_equal (@rev N)) in Eb. rewrite !rev_involutive in Eb. subst head'.
  apply struct_head_inv in Hhead
    as (Hbol & attrs & w1 & w2 & name & w3 & Es & Hw1 & Hne2 & Hw2 & Hnen & Hname & Hw3).
  split.
  - exists attrs, w1, w2, name, w3, body.
    split; [|repeat split; assumption].
    rewrite Hg. rewrite Es in Ea.
    assert (E : head ++ (body ++ py "}" ++ drop (m_end m) snippet)
                = (py "#[derive" ++ attrs ++ py "]" ++ w1 ++ [nl] ++ py "struct"
                     ++ w2 ++ name ++ w3 ++ py "{")
                  ++ (body ++ py "}" ++ drop (m_end m) snippet)).
    { rewrite <- Ea. now rewrite <- !app_assoc. }
    apply app_inv_tail in E. rewrite E. now rewrite <- !app_assoc.
  - unfold at_bol in Hbol. cbn [fst MULTILINE MULTILINE_DOTALL] in Hbol.
    destruct (rev (take (m_start m) snippet)) as [|x r] eqn:Er.
    + left. apply (f_equal (@rev N)) in Er. now rewrite rev_involutive in Er.
    + right. exists (rev r). apply (f_equal (@rev N)) in Er.
      rewrite rev_involutive in Er. rewrite Er. simpl.
      cbn [andb] in Hbol. apply N.eqb_eq in Hbol. now subst x.
Qed.

Lemma split_unit_shape_witness :
  In (Match 36 74 (str_join_nl [py "#[derive(Clone)]"; py "struct B {"; py "  b: u8,"; py "}"]))
     (re_finditer MULTILINE_DOTALL (struct_pattern ascii_only) two_structs)
  /\ (take 36 two_structs = []
      \/ exists before, take 36 two_structs = before ++ [nl]).
Proof.
  assert (H : In (Match 36 74 (str_join_nl [py "#[derive(Clone)]";
                    py "struct B {"; py "  b: u8,"; py "}"]))
                 (re_finditer MULTILINE_DOTALL (struct_pattern ascii_only) two_structs)).
  { vm_compute. right. left. reflexivity. }
  split; [exact H|].
  exact (proj2 (split_unit_shape ascii_only two_structs _ H)).
Defined.

(** ** The filter and the case of letters *)

Lemma letter_not_space c :
  ((65 <= c <= 122) \/ c = 0x130 \/ c = 0x212A)%N -> isspace c = false.
Proof.
  intros H. unfold isspace.
  repeat match goal with
         | |- context [(?a <=? ?b)%N] => destruct (N.leb_spec a b); try lia
         | |- context [(?a =? ?b)%N] => destruct (N.eqb_spec a b); try lia
         end; reflexivity.
Qed.

Section CaseBlind.

Variable unicode_lower : char -> char.
Hypothesis table : lower_table unicode_lower.

Local Abbreviation same := (same_up_to_case unicode_lower).

Lemma table_ascii c :
  (c < 128)%N ->
  unicode_lower c = lower c /\ (unicode_lower c < 128)%N.
Proof using table.
  intros Hc. destruct table as (Hascii & _). rewrite (Hascii c Hc).
  unfold lower.
  destruct (N.leb_spec 65 c), (N.leb_spec c 90), (N.eqb_spec c 0x130),
    (N.eqb_spec c 0x212A); simpl; lia.
Qed.

(** The table and the mapping of the matcher agree wherever one of them
    gives an ASCII character. *)
Lemma table_lower x :
  (unicode_lower x = lower x /\ (lower x < 128)%N)
  \/ ((128 <= unicode_lower x)%N /\ (128 <= lower x)%N).
Proof using table.
  destruct (N.lt_ge_cases x 128) as [Hx|Hx].
  - left. destruct (table_ascii x Hx) as [E H]. rewrite <- E. auto.
  - destruct table as (_ & Hi & Hk & Hup & _).
    destruct (N.eq_dec x 0x130%N) as [->|Hni]; [left; rewrite Hi; now vm_compute|].
    destruct (N.eq_dec x 0x212A%N) as [->|Hnk]; [left; rewrite Hk; now vm_compute|].
    right. split; [now apply Hup|].
    unfold lower.
    destruct (N.leb_spec 65 x), (N.leb_spec x 90), (N.eqb_spec x 0x130),
      (N.eqb_spec x 0x212A); simpl; lia.
Qed.

Lemma table_isspace c : isspace (unicode_lower c) = isspace c.
Proof using table.
  destruct (N.lt_ge_cases c 128) as [Hc|Hc].
  - destruct table as (Hascii & _). rewrite (Hascii c Hc).
    destruct (N.leb_spec 65 c), (N.leb_spec c 90); simpl; try reflexivity.
    rewrite !letter_not_space; [reflexivity|lia..].
  - destruct table as (_ & _ & _ & _ & Hsp). now apply Hsp.
Qed.

Lemma same_lower_isspace x y :
  unicode_lower x = unicode_lower y -> isspace x = isspace y.
Proof using table.
  intros E. now rewrite <- (table_isspace x), <- (table_isspace y), E.
Qed.

(** A literal of a pattern, being ASCII, is matched by both or by none of
    two characters with the same lower case. *)
Lemma same_lower_literal c x y :
  (c < 128)%N ->
  unicode_lower x = unicode_lower y ->
  (lower x =? lower c)%N = (lower y =? lower c)%N.
Proof using table.
  intros Hc E.
  assert (Hlc : (lower c < 128)%N).
  { destruct (table_ascii c Hc) as [<- H]. exact H. }
  destruct (table_lower x) as [[Ex Hx]|[Hx Hx']],
    (table_lower y) as [[Ey Hy]|[Hy Hy']].
  - now rewrite <- Ex, <- Ey, E.
  - rewrite <- Ex, E in Hx. lia.
  - rewrite <- Ey, <- E in Hy. lia.
  - destruct (N.eqb_spec (lower x) (lower c)), (N.eqb_spec (lower y) (lower c));
      try reflexivity; lia.
Qed.

Lemma same_lower_nl x y :
  unicode_lower x = unicode_lower y -> (x =? nl)%N = (y =? nl)%N.
Proof using table.
  intros E. pose proof (same_lower_literal nl x y ltac:(now vm_compute) E) as H.
  change (lower nl) with nl in H.
  assert (Hnl : forall z, (lower z =? nl)%N = (z =? nl)%N).
  { intros z. unfold lower, nl.
    destruct (N.leb_spec 65 z), (N.leb_spec z 90), (N.eqb_spec z 0x130),
      (N.eqb_spec z 0x212A), (N.eqb_spec z 10); simpl; try reflexivity;
      try lia;
      match goal with
      | |- (?a =? ?b)%N = _ => destruct (N.eqb_spec a b); try reflexivity; lia
      end. }
  rewrite <- (Hnl x), <- (Hnl y). exact H.
Qed.

Lemma same_up_to_case_sym s t : same s t -> same t s.
Proof. induction 1; constructor; auto. Qed.

Lemma same_up_to_case_rev s t : same s t -> same (rev s) (rev t).
Proof.
  induction 1 as [|x y s t Hxy _ IH]; simpl; [constructor|].
  apply Forall2_app; [exact IH|]. now repeat constructor.
Qed.

Lemma same_up_to_case_lstrip s t : same s t -> same (lstrip s) (lstrip t).
Proof using table.
  induction 1 as [|x y s t Hxy Hst IH]; simpl; [constructor|].
  rewrite <- (same_lower_isspace x y Hxy).
  destruct (isspace x); [exact IH|now constructor].
Qed.

Lemma same_up_to_case_strip s t : same s t -> same (str_strip s) (str_strip t).
Proof using table.
  intros H. unfold str_strip, rstrip.
  now apply same_up_to_case_rev, same_up_to_case_lstrip, same_up_to_case_rev,
    same_up_to_case_lstrip.
Qed.

Section Flags.

Variable fl : flags.

Lemma case_blind_Forall a m m2 :
  (forall x y, unicode_lower x = unicode_lower y ->
               atom_ok fl a x = atom_ok fl a y) ->
  same m m2 ->
  Forall (fun x => atom_ok fl a x = true) m ->
  Forall (fun x => atom_ok fl a x = true) m2.
Proof.
  intros Ha. induction 1 as [|x y m m2 Hxy _ IH]; intros Hm; [constructor|].
  inversion Hm; subst. constructor; [|auto]. now rewrite <- (Ha x y Hxy).
Qed.

Lemma same_up_to_case_bol b a b2 a2 :
  same b b2 -> at_bol fl (b, a) = at_bol fl (b2, a2).
Proof using table.
  unfold at_bol. simpl. destruct 1 as [|x y b b2 Hxy _]; [reflexivity|].
  now rewrite (same_lower_nl x y Hxy).
Qed.

Lemma same_up_to_case_eol b a b2 a2 :
  same a a2 -> at_eol fl (b, a) = at_eol fl (b2, a2).
Proof using table.
  unfold at_eol. simpl. destruct 1 as [|x y a a2 Hxy Ht]; [reflexivity|].
  rewrite (same_lower_nl x y Hxy). f_equal. f_equal.
  destruct Ht; reflexivity.
Qed.

(** A pattern made of case-blind items has an instance in a text exactly
    when it has one in any text that differs from it by case only. *)
Lemma Matches_case_blind p c c' :
  Matches fl p c c' ->
  Forall (case_blind unicode_lower fl) p ->
  forall b2 a2,
    same (fst c) b2 -> same (snd c) a2 ->
    exists c2', Matches fl p (b2, a2) c2'.
Proof using table.
  induction 1 as [c|a p b x t c' Hx _ IH|a p b m t c' Hm _ IH
                 |a p b x m t c' Hx Hm _ IH|a p b m t c' Hm _ IH
                 |p c c' Hb _ IH|p c c' Hb _ IH];
    intros Hp b2 a2 Hb2 Ha2; simpl in *.
  - eexists. constructor.
  - inversion Hp as [|? ? Ha Hp']; subst. simpl in Ha.
    inversion Ha2 as [|? y ? t2 Hxy Ht2]; subst.
    destruct (IH Hp' (y :: b2) t2) as [c2' H2]; [now constructor|assumption|].
    exists c2'. constructor; [now rewrite <- (Ha x y Hxy)|exact H2].
  - inversion Hp as [|? ? Ha Hp']; subst. simpl in Ha.
    apply Forall2_app_inv_l in Ha2 as (m2 & t2 & Hm2 & Ht2 & ->).
    destruct (IH Hp' (rev m2 ++ b2) t2) as [c2' H2];
      [apply Forall2_app; [now apply same_up_to_case_rev|assumption]|assumption|].
    exists c2'. constructor; [now apply (case_blind_Forall a m m2)|exact H2].
  - inversion Hp as [|? ? Ha Hp']; subst. simpl in Ha.
    inversion Ha2 as [|? y ? r2 Hxy Hr2]; subst.
    apply Forall2_app_inv_l in Hr2 as (m2 & t2 & Hm2 & Ht2 & ->).
    destruct (IH Hp' (rev m2 ++ y :: b2) t2) as [c2' H2];
      [apply Forall2_app; [now apply same_up_to_case_rev|now constructor]
      |assumption|].
    exists c2'. constructor;
      [now rewrite <- (Ha x y Hxy)|now apply (case_blind_Forall a m m2)|exact H2].
  - inversion Hp as [|? ? Ha Hp']; subst. simpl in Ha.
    apply Forall2_app_inv_l in Ha2 as (m2 & t2 & Hm2 & Ht2 & ->).
    destruct (IH Hp' (rev m2 ++ b2) t2) as [c2' H2];
      [apply Forall2_app; [now apply same_up_to_case_rev|assumption]|assumption|].
    exists c2'. constructor; [now apply (case_blind_Forall a m m2)|exact H2].
  - inversion Hp as [|? ? _ Hp']; subst.
    destruct (IH Hp' b2 a2 Hb2 Ha2) as [c2' H2].
    exists c2'. constructor; [|exact H2].
    destruct c as [b a]. now rewrite <- (same_up_to_case_bol b a b2 a2 Hb2).
  - inversion Hp as [|? ? _ Hp']; subst.
    destruct (IH Hp' b2 a2 Hb2 Ha2) as [c2' H2].
    exists c2'. constructor; [|exact H2].
    destruct c as [b a]. now rewrite <- (same_up_to_case_eol b a b2 a2 Ha2).
Qed.

End Flags.

(** The items of the stub-marker patterns are literals of ASCII and the
    class of white space. *)
Lemma placeholder_patterns_case_blind pattern :
  In pattern placeholder_patterns ->
  Forall (case_blind unicode_lower IGNORECASE_MULTILINE) pattern.
Proof using table.
  intros H. repeat (destruct H as [<-|H]); [..|destruct H];
    repeat (apply List.Forall_cons || apply List.Forall_nil);
    try exact I;
    intros x y Hxy; cbn [atom_ok IGNORECASE IGNORECASE_MULTILINE ws];
    first [apply same_lower_literal; [now vm_compute|exact Hxy]
          |now apply same_lower_isspace].
Qed.

Lemma is_placeholder_case_blind s t :
  same s t ->
  is_placeholder_snippet s = true -> is_placeholder_snippet t = true.
Proof using table.
  intros Hst Hs. pose proof (same_up_to_case_strip _ _ Hst) as Hstrip.
  apply is_placeholder_snippet_true in Hs.
  apply is_placeholder_snippet_true.
  destruct Hs as [(pattern & Hin & [c' Hm])|Hlen].
  - left. exists pattern. split; [exact Hin|].
    apply match_here_sound in Hm.
    destruct (Matches_case_blind _ _ _ _ Hm
                (placeholder_patterns_case_blind _ Hin) [] (str_strip t))
      as [c2' H2]; [constructor|exact Hstrip|].
    now apply match_here_complete in H2.
  - right. now rewrite <- (Forall2_length _ _ _ Hstrip).
Qed.

End CaseBlind.

(** X15: the placeholder filter does not look at the case of letters: two
    snippets of which each character has the same lower case in the Unicode
    table as the character at the same place in the other get the same
    verdict. *)
Theorem placeholder_filter_ignores_case (unicode_lower : char -> char)
    (s t : str) :
  lower_table unicode_lower ->
  same_up_to_case unicode_lower s t ->
  is_placeholder_snippet s = is_placeholder_snippet t.
Proof.
  intros Htable Hst.
  destruct (is_placeholder_snippet s) eqn:Hs, (is_placeholder_snippet t) eqn:Ht;
    try reflexivity.
  - rewrite (is_placeholder_case_blind unicode_lower Htable s t Hst Hs) in Ht.
    discriminate.
  - rewrite (is_placeholder_case_blind unicode_lower Htable t s
               (same_up_to_case_sym unicode_lower _ _ Hst) Ht) in Hs.
    discriminate.
Qed.

(** The table of Basic Latin and Latin-1 is as the statement wants it. *)
Lemma latin1_lower_table : lower_table latin1_lower.
Proof.
  unfold lower_table, latin1_lower. repeat split.
  - intros c Hc.
    destruct (N.leb_spec 65 c), (N.leb_spec c 90), (N.leb_spec 0xC0 c),
      (N.leb_spec c 0xDE), (N.eqb_spec c 0xD7), (N.eqb_spec c 0x130),
      (N.eqb_spec c 0x212A); simpl; try reflexivity; lia.
  - intros c Hc Hi Hk.
    destruct (N.leb_spec 65 c), (N.leb_spec c 90), (N.leb_spec 0xC0 c),
      (N.leb_spec c 0xDE), (N.eqb_spec c 0xD7), (N.eqb_spec c 0x130),
      (N.eqb_spec c 0x212A); simpl; lia.
  - intros c Hc.
    destruct (N.leb_spec 65 c), (N.leb_spec c 90), (N.leb_spec 0xC0 c),
      (N.leb_spec c 0xDE), (N.eqb_spec c 0xD7), (N.eqb_spec c 0x130),
      (N.eqb_spec c 0x212A); simpl; try reflexivity; try lia; subst;
      try reflexivity;
      unfold isspace;
      repeat match goal with
             | |- context [(?a <=? ?b)%N] => destruct (N.leb_spec a b); try lia
             | |- context [(?a =? ?b)%N] => destruct (N.eqb_spec a b); try lia
             end; reflexivity.
Qed.

Lemma placeholder_filter_ignores_case_witness :
  same_up_to_case latin1_lower shouting_marker whispering_marker
  /\ shouting_marker <> whispering_marker
  /\ is_placeholder_snippet shouting_marker
     = is_placeholder_snippet whispering_marker.
Proof.
  assert (H : same_up_to_case latin1_lower shouting_marker whispering_marker)
    by (vm_compute; repeat constructor).
  split; [exact H|]. split; [discriminate|].
  exact (placeholder_filter_ignores_case latin1_lower shouting_marker
           whispering_marker latin1_lower_table H).
Defined.
